(** * The hacluster "requires" interface: a shallow embedding of requires.py

    The development follows the layout of the Python module:
    - [Py]: the fragment of Python values the module manipulates (strings,
      mappings with insertion order, lists), with truthiness, [str.lower],
      [str.replace], [in] on strings, [sorted] and [json.dumps];
    - [Sha1]: [hashlib.sha1(..).hexdigest()];
    - [Common]: the registry of [relations.hacluster.common];
    - [Reactive]: the conversation state offered by [charms.reactive]
      (flags, local and remote relation data, [data_changed]);
    - [Requires]: the class [HAClusterRequires] itself, followed by the
      notions its properties are stated with.

    relations.hacluster.common and charms.reactive are not part of the
    sources at hand; what is used of them is modelled from the spec and
    marked as such.

    A Python [str] is a [string] holding one character per code point, so
    the text covered is the one within U+0000..U+00FF. *)

From Stdlib Require Import ZArith NArith String Ascii List Sorted Permutation Lia.
From Stdlib Require Import DecimalString.
From stdpp Require Import base option list sorting gmap strings.

Local Open Scope Z_scope.
Set Warnings "-register-all,-clear-no-such-hyp".

(** ** Python values *)

Module Py.

(** JSON-like values: what the unit's key-value store hands back and what
    [json.dumps] accepts.  A [PDict] keeps its items in insertion order, as a
    Python [dict] does; its keys are strings. *)
Inductive pyval : Type :=
| PNone
| PBool (b : bool)
| PInt (n : Z)
| PStr (s : string)
| PList (xs : list pyval)
| PDict (items : list (string * pyval)).

(** Exceptions a modelled operation can raise. *)
Inductive pyexn : Type :=
| TypeError
| AttributeError.

Inductive result (A : Type) : Type :=
| Ok (a : A)
| Raise (e : pyexn).
Arguments Ok {A} a.
Arguments Raise {A} e.

#[global] Instance result_ret : MRet result := fun A a => Ok a.
#[global] Instance result_bind : MBind result := fun A B f m =>
  match m with
  | Ok a => f a
  | Raise e => Raise e
  end.

(** [bool(v)]: the truth value of [v] in an [if]. *)
Definition truthy (v : pyval) : bool :=
  match v with
  | PNone => false
  | PBool b => b
  | PInt n => negb (n =? 0)
  | PStr s => negb (String.eqb s "")
  | PList xs => match xs with [] => false | _ => true end
  | PDict items => match items with [] => false | _ => true end
  end.

(** Truth value of an optional string argument ([None] and [''] are false). *)
Definition truthy_str (o : option string) : bool :=
  match o with
  | Some s => negb (String.eqb s "")
  | None => false
  end.

(** Truth value of an optional integer argument ([None] and [0] are false). *)
Definition truthy_int (o : option Z) : bool :=
  match o with
  | Some n => negb (n =? 0)
  | None => false
  end.

(** *** Strings *)

Definition code (c : ascii) : Z := Z.of_N (N_of_ascii c).
Definition chr (n : Z) : ascii := ascii_of_N (Z.to_N n).

(** [str.lower] on one code point below 256: A-Z and the accented capitals
    U+00C0..U+00DE, the multiplication sign U+00D7 excepted. *)
Definition lower_char (c : ascii) : ascii :=
  let n := code c in
  if ((65 <=? n) && (n <=? 90)) || ((192 <=? n) && (n <=? 222) && negb (n =? 215))
  then chr (n + 32)
  else c.

Fixpoint lower (s : string) : string :=
  match s with
  | EmptyString => EmptyString
  | String c s' => String (lower_char c) (lower s')
  end.

(** [s.replace(a, b)] for one-character [a] and [b]. *)
Fixpoint replace (a b : ascii) (s : string) : string :=
  match s with
  | EmptyString => EmptyString
  | String c s' => String (if Ascii.eqb c a then b else c) (replace a b s')
  end.

(** [pat in s] on strings: [pat] occurs as a substring of [s]. *)
Fixpoint contains (pat s : string) : bool :=
  String.prefix pat s ||
  match s with
  | EmptyString => false
  | String _ s' => contains pat s'
  end.

(** [s[:n]]. *)
Fixpoint take_str (n : nat) (s : string) : string :=
  match n, s with
  | S n', String c s' => String c (take_str n' s')
  | _, _ => EmptyString
  end.

(** [sep.join(parts)]. *)
Fixpoint join (sep : string) (parts : list string) : string :=
  match parts with
  | [] => ""
  | [p] => p
  | p :: rest => p +:+ sep +:+ join sep rest
  end.

(** *** Mappings in insertion order *)

Section Dict.
Context {V : Type}.

(** [d.get(k)]: the first item stored under [k]. *)
Fixpoint dict_get (k : string) (d : list (string * V)) : option V :=
  match d with
  | [] => None
  | (k', v) :: d' => if String.eqb k' k then Some v else dict_get k d'
  end.

(** [d[k] = v]: overwrite in place, or append a new item at the end. *)
Fixpoint dict_set (k : string) (v : V) (d : list (string * V)) : list (string * V) :=
  match d with
  | [] => [(k, v)]
  | (k', v') :: d' =>
      if String.eqb k' k then (k, v) :: d' else (k', v') :: dict_set k v d'
  end.

Definition dict_keys (d : list (string * V)) : list string := map fst d.

(** [k in d]. *)
Definition dict_has (k : string) (d : list (string * V)) : bool :=
  match dict_get k d with
  | Some _ => true
  | None => false
  end.

(** [d.update(e)]: the items of [e] are stored one after the other. *)
Definition dict_update (d e : list (string * V)) : list (string * V) :=
  fold_left (fun acc kv => dict_set (fst kv) (snd kv) acc) e d.
End Dict.

(** *** [sorted] *)

Section Sort.
Context {A : Type} (key : A -> string).

Fixpoint insert_by (x : A) (l : list A) : list A :=
  match l with
  | [] => [x]
  | y :: l' => if String.leb (key x) (key y) then x :: l else y :: insert_by x l'
  end.

(** A stable sort on the key, as Python's [sorted] is; the order of [str]
    is the lexicographic order on code points. *)
Definition sort_by (l : list A) : list A := fold_right insert_by [] l.

(** The order the sort puts the items in. *)
Definition key_le (x y : A) : Prop := String.leb (key x) (key y) = true.
End Sort.

(** [sorted(l)] on a list of strings. *)
Definition sorted (l : list string) : list string := sort_by (fun s => s) l.

(** *** [json.dumps(v, sort_keys=True)] *)

Definition hex_digit (n : Z) : ascii :=
  if n <? 10 then chr (48 + n) else chr (87 + n).

Definition backslash : ascii := chr 92.
Definition dquote : ascii := chr 34.

(** A backslash followed by the characters of [s]. *)
Definition esc (s : string) : string := String backslash s.

(** The escape of a code point below 256: backslash, u, four hex digits. *)
Definition escape_u (n : Z) : string :=
  esc (String "u" (String "0" (String "0"
    (String (hex_digit (n / 16)) (String (hex_digit (n mod 16)) EmptyString))))).

(** One character of a string literal, as [ensure_ascii] has it: the
    printable ASCII characters stand for themselves, the quote, the backslash
    and five control characters have a short escape. *)
Definition escape_char (c : ascii) : string :=
  let n := code c in
  if n =? 34 then esc (String dquote EmptyString)
  else if n =? 92 then esc (String backslash EmptyString)
  else if n =? 10 then esc "n"
  else if n =? 13 then esc "r"
  else if n =? 9 then esc "t"
  else if n =? 8 then esc "b"
  else if n =? 12 then esc "f"
  else if (32 <=? n) && (n <=? 126) then String c EmptyString
  else escape_u n.

Fixpoint escape (s : string) : string :=
  match s with
  | EmptyString => EmptyString
  | String c s' => escape_char c +:+ escape s'
  end.

Definition quote (s : string) : string :=
  String dquote (escape s) +:+ String dquote EmptyString.

(** [str(n)] of an integer. *)
Definition str_int (n : Z) : string := NilZero.string_of_int (Z.to_int n).

Definition dumps_item (kv : string * string) : string :=
  quote (fst kv) +:+ ": " +:+ snd kv.

(** The items of a mapping are rendered and put in the order of their keys;
    the items of a list keep their positions. *)
Fixpoint dumps (v : pyval) : string :=
  match v with
  | PNone => "null"
  | PBool true => "true"
  | PBool false => "false"
  | PInt n => str_int n
  | PStr s => quote s
  | PList xs => "[" +:+ join ", " (map dumps xs) +:+ "]"
  | PDict items =>
      "{" +:+ join ", " (map dumps_item
                (sort_by fst (map (fun '(k, x) => (k, dumps x)) items))) +:+ "}"
  end.

(** *** Values as contents *)

(** A value is well formed when no mapping in it holds a key twice, as is
    the case of every Python [dict]. *)
Fixpoint wf (v : pyval) : bool :=
  match v with
  | PList xs => forallb wf xs
  | PDict items =>
      bool_decide (NoDup (map fst items)) && forallb (fun '(_, x) => wf x) items
  | _ => true
  end.

Section All2.
Context {A B : Type} (f : A -> B -> bool).

Fixpoint all2 (xs : list A) (ys : list B) : bool :=
  match xs, ys with
  | [], [] => true
  | x :: xs', y :: ys' => f x y && all2 xs' ys'
  | _, _ => false
  end.
End All2.

(** Logical equality: the same kind of value with the same content, where
    lists are compared position by position and mappings item by item,
    whatever the order in which their items were inserted. *)
Fixpoint same_content (a b : pyval) : bool :=
  match a, b with
  | PNone, PNone => true
  | PBool x, PBool y => Bool.eqb x y
  | PInt x, PInt y => x =? y
  | PStr x, PStr y => String.eqb x y
  | PList xs, PList ys => all2 same_content xs ys
  | PDict d, PDict e =>
      (length d =? length e)%nat &&
      forallb (fun '(k, x) =>
                 match dict_get k e with
                 | Some y => same_content x y
                 | None => false
                 end) d
  | _, _ => false
  end.

(** Equality of strings up to the case of the letters A-Z. *)
Definition is_upper (c : ascii) : bool := (65 <=? code c) && (code c <=? 90).

Definition same_char_ci (a b : ascii) : bool :=
  Ascii.eqb a b
  || (is_upper a && (code b =? code a + 32))
  || (is_upper b && (code a =? code b + 32)).

Fixpoint equal_ci (s t : string) : bool :=
  match s, t with
  | EmptyString, EmptyString => true
  | String a s', String b t' => same_char_ci a b && equal_ci s' t'
  | _, _ => false
  end.

(** The words [is_clustered] compares with are made of these letters. *)
Definition word_letter (b : ascii) : Prop :=
  b ∈ ["t"; "r"; "u"; "e"; "y"; "s"]%char.

Fixpoint word (t : string) : Prop :=
  match t with
  | EmptyString => True
  | String b t' => word_letter b ∧ word t'
  end.

End Py.

(** ** [hashlib.sha1] *)

Module Sha1.
Import Py.

(** 32-bit words are integers taken modulo 2^32. *)
Definition w32 (x : Z) : Z := x mod 2 ^ 32.

Definition rotl (n x : Z) : Z :=
  w32 (Z.lor (Z.shiftl x n) (Z.shiftr x (32 - n))).

(** [s.encode('UTF-8')] for code points below 256: one byte below 128, two
    bytes from there on. *)
Fixpoint encode_utf8 (s : string) : list Z :=
  match s with
  | EmptyString => []
  | String c s' =>
      let n := code c in
      (if n <? 128 then [n]
       else [Z.lor 192 (Z.shiftr n 6); Z.lor 128 (Z.land n 63)]) ++ encode_utf8 s'
  end.

(** The eight bytes of a 64-bit length, most significant first. *)
Definition be64 (x : Z) : list Z :=
  map (fun i => Z.land (Z.shiftr x (8 * i)) 255) [7; 6; 5; 4; 3; 2; 1; 0].

(** Message padding: a one bit, zeros up to 56 modulo 64 bytes, then the
    length in bits. *)
Definition pad (msg : list Z) : list Z :=
  let len := Z.of_nat (length msg) in
  msg ++ [128] ++ repeat 0 (Z.to_nat ((55 - len) mod 64)) ++ be64 (8 * len).

(** Big-endian words of a byte string. *)
Fixpoint words (bs : list Z) : list Z :=
  match bs with
  | a :: b :: c :: d :: rest => (((a * 256 + b) * 256 + c) * 256 + d) :: words rest
  | _ => []
  end.

Fixpoint blocks (n : nat) (ws : list Z) : list (list Z) :=
  match n with
  | O => []
  | S n' => firstn 16 ws :: blocks n' (skipn 16 ws)
  end.

(** Message schedule, kept with the latest word first:
    w[t] = rotl 1 (w[t-3] xor w[t-8] xor w[t-14] xor w[t-16]). *)
Fixpoint expand (n : nat) (w : list Z) : list Z :=
  match n with
  | O => w
  | S n' =>
      expand n'
        (rotl 1 (Z.lxor (Z.lxor (nth 2 w 0) (nth 7 w 0))
                        (Z.lxor (nth 13 w 0) (nth 15 w 0))) :: w)
  end.

Definition schedule (block : list Z) : list Z := rev (expand 64 (rev block)).

Record digest : Type := Digest { h0 : Z; h1 : Z; h2 : Z; h3 : Z; h4 : Z }.

Definition initial_digest : digest :=
  Digest 0x67452301 0xEFCDAB89 0x98BADCFE 0x10325476 0xC3D2E1F0.

Definition f_k (t b c d : Z) : Z * Z :=
  if t <? 20 then (Z.lor (Z.land b c) (Z.land (Z.lxor b 0xFFFFFFFF) d), 0x5A827999)
  else if t <? 40 then (Z.lxor (Z.lxor b c) d, 0x6ED9EBA1)
  else if t <? 60 then
    (Z.lor (Z.lor (Z.land b c) (Z.land b d)) (Z.land c d), 0x8F1BBCDC)
  else (Z.lxor (Z.lxor b c) d, 0xCA62C1D6).

Definition round (acc : Z * digest) (wt : Z) : Z * digest :=
  let '(t, Digest a b c d e) := acc in
  let '(f, k) := f_k t b c d in
  (t + 1, Digest (w32 (rotl 5 a + f + e + k + wt)) a (rotl 30 b) c d).

Definition compress (h : digest) (block : list Z) : digest :=
  let '(_, Digest a b c d e) := fold_left round (schedule block) (0, h) in
  Digest (w32 (h0 h + a)) (w32 (h1 h + b)) (w32 (h2 h + c))
         (w32 (h3 h + d)) (w32 (h4 h + e)).

Definition sha1 (msg : list Z) : digest :=
  let ws := words (pad msg) in
  fold_left compress (blocks (length ws / 16)%nat ws) initial_digest.

Definition hex_word (x : Z) : string :=
  string_of_list_ascii
    (map (fun i => hex_digit (Z.land (Z.shiftr x (4 * i)) 15)) [7; 6; 5; 4; 3; 2; 1; 0]).

(** [hashlib.sha1(s.encode('UTF-8')).hexdigest()]. *)
Definition hexdigest (s : string) : string :=
  let h := sha1 (encode_utf8 s) in
  hex_word (h0 h) +:+ hex_word (h1 h) +:+ hex_word (h2 h) +:+ hex_word (h3 h)
  +:+ hex_word (h4 h).

End Sha1.

(** ** The registry of [relations.hacluster.common] *)

Module Common.
Import Py.

(** The resources a principal can declare, with the fields the callers in
    requires.py pass to their constructors. *)
Inductive ResourceDescriptor : Type :=
| VirtualIP (service_name vip : string) (nic cidr : option string)
| InitService (service_name init_service_name : string) (clone : bool)
| SystemdService (service_name systemd_service_name : string) (clone : bool)
| DNSEntry (service_name ip fqdn endpoint_type : string).

(** Modelled from the spec: the canonical key of a resource, which
    relations.hacluster.common computes and which is not part of the sources
    at hand.  The spec gives the shape res_<name>_<disambiguator>_<kind-suffix>;
    the disambiguators are the ones the removal methods of requires.py use to
    address the same resources. *)
Definition resource_key (r : ResourceDescriptor) : string :=
  match r with
  | VirtualIP name vip nic _ =>
      let nic_name := if truthy_str nic then default EmptyString nic
                      else take_str 7 (Sha1.hexdigest vip) in
      "res_" +:+ name +:+ "_" +:+ nic_name +:+ "_vip"
  | InitService name service _ | SystemdService name service _ =>
      "res_" +:+ replace "-" "_" name +:+ "_" +:+ replace "-" "_" service
  | DNSEntry name _ _ endpoint_type =>
      "res_" +:+ replace "-" "_" name +:+ "_" +:+ endpoint_type +:+ "_hostname"
  end.

(** A registry is a mapping (the callers splat a stored mapping into its
    constructor, iterate over its items and read its 'resources' entry). *)
Abbreviation CRM := (list (string * pyval)).

(** Modelled from the spec: the sections of a fresh registry of
    relations.hacluster.common: the resources by key, the groups by name and
    the pending deletions. *)
Definition crm_sections : CRM :=
  [("resources", PDict []); ("delete_resources", PList []); ("groups", PDict [])].

(** Modelled from the spec: the constructor of [CRM] in
    relations.hacluster.common, called with keyword arguments: a fresh
    registry updated with them, so that a stored mapping is reconstructed as
    a registry. *)
Definition crm_init (kwargs : CRM) : CRM := dict_update crm_sections kwargs.

(** The constructor applied to the items of [resource_dict]: only a mapping
    can be splatted into keyword arguments. *)
Definition crm_of (resource_dict : pyval) : result CRM :=
  match resource_dict with
  | PDict items => Ok (crm_init items)
  | _ => Raise TypeError
  end.

(** [self[section][key] = v]: the section has to be a mapping. *)
Definition section_set (section key : string) (v : pyval) (crm : CRM) : result CRM :=
  match dict_get section crm with
  | Some (PDict items) => Ok (dict_set section (PDict (dict_set key v items)) crm)
  | _ => Raise TypeError
  end.

Definition is_str (s : string) (v : pyval) : bool :=
  match v with
  | PStr t => String.eqb t s
  | _ => false
  end.

(** Modelled from the spec: [CRM.group] of relations.hacluster.common, which
    creates or overwrites a named group whose members are the given resource
    keys in lexicographic order. *)
Definition group (name : string) (members : list string) (crm : CRM) : result CRM :=
  section_set "groups" name (PList (map PStr (sorted members))) crm.

(** Modelled from the spec: [CRM.add_delete_resource] of
    relations.hacluster.common, which records that a resource is to be torn
    down; a key already pending is not recorded twice. *)
Definition add_delete_resource (resource_name : string) (crm : CRM) : result CRM :=
  match dict_get "delete_resources" crm with
  | Some (PList xs) =>
      Ok (if existsb (is_str resource_name) xs then crm
          else dict_set "delete_resources" (PList (xs ++ [PStr resource_name])) crm)
  | _ => Raise TypeError
  end.

Section Registry.
(** What the registry stores under the key of a resource is decided by
    relations.hacluster.common; the development is parametric in it. *)
Variable describe : ResourceDescriptor -> pyval.

(** Modelled from the spec: [CRM.add] of relations.hacluster.common, which
    inserts or overwrites the resource by its canonical key, mutating the
    'resources' section in place. *)
Definition add (r : ResourceDescriptor) (crm : CRM) : result CRM :=
  section_set "resources" (resource_key r) (describe r) crm.

(** The valid registries: the ones obtained from the constructor, called
    without arguments or with the items of a registry, by the operations. *)
Inductive registry : CRM -> Prop :=
| registry_fresh : registry (crm_init [])
| registry_stored crm : registry crm -> registry (crm_init crm)
| registry_add r crm crm' :
    registry crm -> add r crm = Ok crm' -> registry crm'
| registry_group name members crm crm' :
    registry crm -> group name members crm = Ok crm' -> registry crm'
| registry_delete name crm crm' :
    registry crm -> add_delete_resource name crm = Ok crm' -> registry crm'.
End Registry.

End Common.

(** ** The conversation state of [charms.reactive] *)

Module Reactive.
Import Py.

(** A relation setting written by this module: a string or an integer. *)
Inductive setting : Type :=
| SStr (s : string)
| SInt (n : Z).

#[global] Instance setting_eq_dec : EqDecision setting.
Proof. solve_decision. Defined.

Definition setting_val (x : setting) : pyval :=
  match x with
  | SStr s => PStr s
  | SInt n => PInt n
  end.

(** The calls made to the relation data store and to the change-detection
    gate, in the order they are made. *)
Inductive call : Type :=
| DataChanged (data_id : string) (data : gmap string setting)
| SetLocal (data : gmap string pyval)
| SetRemote (data : gmap string setting).

Record unit_state : Type := UnitState {
  states : gset string;                         (* flags set on the conversation *)
  local_data : gmap string pyval;               (* set_local / get_local *)
  remote_data : gmap string setting;            (* set_remote *)
  seen : gmap string (gmap string setting);     (* last payload per data_changed id *)
  calls : list call
}.

Definition initial : unit_state := UnitState ∅ ∅ ∅ ∅ [].

(** Modelled from the spec: [set_state] and [remove_state] of charms.reactive
    raise and clear a flag of the conversation. *)
Definition set_state (flag : string) (st : unit_state) : unit_state :=
  UnitState ({[flag]} ∪ states st) (local_data st) (remote_data st) (seen st) (calls st).

Definition remove_state (flag : string) (st : unit_state) : unit_state :=
  UnitState (states st ∖ {[flag]}) (local_data st) (remote_data st) (seen st) (calls st).

(** Modelled from the spec: [get_local(key)] of the relation data store
    (charms.reactive), the stored value or [None]. *)
Definition get_local (key : string) (st : unit_state) : pyval :=
  default PNone (local_data st !! key).

(** Modelled from the spec: [set_local] of the relation data store, with the
    items of [data] as keyword arguments. *)
Definition set_local (data : gmap string pyval) (st : unit_state) : unit_state :=
  UnitState (states st) (data ∪ local_data st) (remote_data st) (seen st)
            (calls st ++ [SetLocal data]).

(** Modelled from the spec: [set_remote] of the relation data store, with
    the items of [data] as keyword arguments. *)
Definition set_remote (data : gmap string setting) (st : unit_state) : unit_state :=
  UnitState (states st) (local_data st) (data ∪ remote_data st) (seen st)
            (calls st ++ [SetRemote data]).

(** Modelled from the spec: the change-detection gate, [data_changed] of
    charms.reactive.helpers: true the first time [data_id] is seen and
    whenever [data] differs from the payload last seen under it; the payload
    is remembered either way.  Payloads are flat mappings of settings,
    compared by value. *)
Definition data_changed (data_id : string) (data : gmap string setting)
    (st : unit_state) : bool * unit_state :=
  (bool_decide (seen st !! data_id ≠ Some data),
   UnitState (states st) (local_data st) (remote_data st) (<[data_id := data]> (seen st))
             (calls st ++ [DataChanged data_id data])).

(** What [hookenv.relation_get] returns for one key of one remote unit: a
    string, nothing, or (for later versions of the subordinate) a boolean. *)
Inductive relval : Type :=
| RNone
| RBool (b : bool)
| RStr (s : string).

#[global] Instance relval_eq_dec : EqDecision relval.
Proof. solve_decision. Defined.

Definition rtruthy (v : relval) : bool :=
  match v with
  | RNone => false
  | RBool b => b
  | RStr s => negb (String.eqb s "")
  end.

(** [a or b]. *)
Definition ror (a b : relval) : relval := if rtruthy a then a else b.

(** The relation data as the hook environment presents it. *)
Record hookenv : Type := HookEnv {
  conversations : list (list string);           (* the relation ids of each *)
  related_units : string -> list string;
  relation_get : string -> string -> string -> relval   (* key, unit, relation id *)
}.

End Reactive.

(** ** The class [HAClusterRequires] *)

Module Requires.
Import Py Common Reactive.

(** The attributes of [self] the methods read.  [service_name] and
    [endpoint_type] are defined neither by the class nor by its base class,
    so they may be missing. *)
Record HAClusterRequires : Type := Self {
  relation_name : string;
  service_name : option string;
  endpoint_type : option string
}.

Definition connected (self : HAClusterRequires) : string :=
  relation_name self +:+ ".connected".

Definition available (self : HAClusterRequires) : string :=
  relation_name self +:+ ".available".

(** *** Relation hooks *)

Definition joined (self : HAClusterRequires) (st : unit_state) : unit_state :=
  set_state (connected self) st.

(** [changed], given what [self.is_clustered()] returned. *)
Definition changed (self : HAClusterRequires) (is_clustered : bool)
    (st : unit_state) : unit_state :=
  if is_clustered then set_state (available self) st
  else remove_state (available self) st.

Definition departed (self : HAClusterRequires) (st : unit_state) : unit_state :=
  remove_state (connected self) (remove_state (available self) st).

(** *** Reading the remote side *)

(** The list [values] built by the loops of [get_remote_all]. *)
Definition remote_values (key : string) (default : relval) (env : hookenv)
    : list relval :=
  flat_map (fun conversation =>
    flat_map (fun relation_id =>
      flat_map (fun unit =>
        let value := ror (relation_get env key unit relation_id) default in
        if rtruthy value then [value] else [])
      (related_units env relation_id))
    conversation)
  (conversations env).

(** [get_remote_all] returns [list(set(values))]: the distinct values, in an
    order the language does not fix. *)
Definition get_remote_all (key : string) (default : relval) (env : hookenv)
    (l : list relval) : Prop :=
  NoDup l ∧ ∀ v, v ∈ l ↔ v ∈ remote_values key default env.

(** The body of [is_clustered] once [clustered_values] is known. *)
Definition is_clustered_from (clustered_values : list relval) : bool :=
  match clustered_values with
  | [] => false
  | clustered :: _ =>
      match clustered with
      | RBool b => b
      | RNone => false
      | RStr s => String.eqb (lower s) "true" || String.eqb (lower s) "yes"
      end
  end.

Definition is_clustered (env : hookenv) (b : bool) : Prop :=
  ∃ clustered_values,
    get_remote_all "clustered" RNone env clustered_values ∧
    is_clustered_from clustered_values = b.

(** *** Settings sent to the subordinate *)

Definition bind_on (iface : option string) (mcastport : option Z)
    (st : unit_state) : unit_state :=
  let relation_data : gmap string setting := ∅ in
  let relation_data :=
    match iface with
    | Some i => if truthy_str iface then <["corosync_bindiface" := SStr i]> relation_data
                else relation_data
    | None => relation_data
    end in
  let relation_data :=
    match mcastport with
    | Some p => if truthy_int mcastport then <["corosync_mcastport" := SInt p]> relation_data
                else relation_data
    | None => relation_data
    end in
  if bool_decide (relation_data ≠ ∅) then
    let '(has_changed, st1) := data_changed "hacluster-bind_on" relation_data st in
    if has_changed
    then set_remote relation_data (set_local (setting_val <$> relation_data) st1)
    else st1
  else st.

(** The mapping built by the comprehension of [manage_resources]: one
    'json_'-prefixed entry per item of the registry whose value is true. *)
Fixpoint wire (items : CRM) (acc : gmap string setting) : gmap string setting :=
  match items with
  | [] => acc
  | (k, v) :: rest =>
      wire rest (if truthy v then <["json_" +:+ k := SStr (dumps v)]> acc else acc)
  end.

Definition manage_resources (crm : CRM) (st : unit_state) : unit_state :=
  let relation_data := wire crm ∅ in
  let '(has_changed, st1) := data_changed "hacluster-manage_resources" relation_data st in
  if has_changed
  then set_remote relation_data (set_local (setting_val <$> relation_data) st1)
  else st1.

Definition bind_resources (iface : option string) (mcastport : option Z)
    (st : unit_state) : result unit_state :=
  let mcastport := match mcastport with None => Some 4440 | Some _ => mcastport end in
  let resources_dict := get_local "resources" st in
  let st := bind_on iface mcastport st in
  if truthy resources_dict then
    resources ← crm_of resources_dict;
    mret (manage_resources resources st)
  else mret st.

(** *** Declaring and removing resources *)

(** The registry the methods start from: the stored one when there is one,
    a fresh one otherwise. *)
Definition stored_registry (resource_dict : pyval) : result CRM :=
  if truthy resource_dict then crm_of resource_dict else Ok (crm_init []).

Definition delete_resource (resource_name : string) (st : unit_state)
    : result unit_state :=
  let resource_dict := get_local "resources" st in
  resources ← stored_registry resource_dict;
  resources ← add_delete_resource resource_name resources;
  mret (set_local {["resources" := PDict resources]} st).

(** [resource_dict.get(k)] read after the registry [resources] was built from
    [resource_dict]: keyword arguments are passed by reference, so an entry
    of [resource_dict] is the very object [resources] holds under the same
    key, and shows what was stored into it since. *)
Definition shared_get (k : string) (resource_dict : pyval) (resources : CRM) : pyval :=
  match resource_dict with
  | PDict items => if dict_has k items then default PNone (dict_get k resources) else PNone
  | _ => PNone
  end.

(** The keys met by [for k in v]; the value iterated over is a section of a
    registry, which is a mapping. *)
Definition iter_keys (v : pyval) : result (list string) :=
  match v with
  | PDict items => Ok (dict_keys items)
  | _ => Raise TypeError
  end.

Section Methods.
Variable describe : ResourceDescriptor -> pyval.

Definition add_vip (name vip : string) (iface netmask : option string)
    (st : unit_state) : result unit_state :=
  let resource_dict := get_local "resources" st in
  resources ← stored_registry resource_dict;
  resources ← add describe (VirtualIP name vip iface netmask) resources;
  let group_name := "grp_" +:+ name +:+ "_vips" in
  resources ←
    (if truthy resource_dict then
       let vip_resources := shared_get "resources" resource_dict resources in
       if truthy vip_resources then
         keys ← iter_keys vip_resources;
         let vip_res_group_members := filter (fun vip_res => contains "vip" vip_res) keys in
         group group_name (sorted vip_res_group_members) resources
       else mret resources
     else mret resources);
  mret (set_local {["resources" := PDict resources]} st).
End Methods.

Definition remove_vip (name vip : string) (iface : option string)
    (st : unit_state) : result unit_state :=
  let nic_name :=
    match iface with
    | Some i => if truthy_str iface then i else take_str 7 (Sha1.hexdigest vip)
    | None => take_str 7 (Sha1.hexdigest vip)
    end in
  delete_resource ("res_" +:+ name +:+ "_" +:+ nic_name +:+ "_vip") st.

(** The key is formatted from attributes of [self]; the parameters are not
    used. *)
Definition remove_dnsha (self : HAClusterRequires) (name endpoint_type : string)
    (st : unit_state) : result unit_state :=
  match service_name self with
  | Some sn =>
      match Requires.endpoint_type self with
      | Some et =>
          delete_resource
            ("res_" +:+ replace "-" "_" sn +:+ "_" +:+ et +:+ "_hostname") st
      | None => Raise AttributeError
      end
  | None => Raise AttributeError
  end.

(** *** What the remote side says *)

(** The values the related units present for [key], as [relation_get]
    returns them. *)
Definition presented (key : string) (env : hookenv) : list relval :=
  flat_map (fun conversation =>
    flat_map (fun relation_id =>
      map (fun unit => relation_get env key unit relation_id)
          (related_units env relation_id))
    conversation)
  (conversations env).

(** The reading of a 'clustered' value: the boolean itself, or whether the
    string is, up to case, one of the words true and yes; nothing and the
    empty string read as false. *)
Definition clustered_meaning (v : relval) : bool :=
  match v with
  | RNone => false
  | RBool b => b
  | RStr s => equal_ci s "true" || equal_ci s "yes"
  end.

(** *** The hooks as a transition system *)

(** One hook runs to completion; [changed] sees what [is_clustered] returns
    for the relation data of the moment. *)
Inductive step (self : HAClusterRequires) : unit_state -> unit_state -> Prop :=
| step_joined st : step self st (joined self st)
| step_changed env b st : is_clustered env b -> step self st (changed self b st)
| step_departed st : step self st (departed self st).

Definition reachable (self : HAClusterRequires) (st : unit_state) : Prop :=
  rtc (step self) initial st.

(** The same hooks delivered in the order of the relation lifecycle: the
    first component tells whether the relation is established, which it is
    from relation-joined to relation-broken/departed, and relation-changed is
    delivered on an established relation only. *)
Inductive lifecycle_step (self : HAClusterRequires)
    : bool * unit_state -> bool * unit_state -> Prop :=
| lifecycle_joined established st :
    lifecycle_step self (established, st) (true, joined self st)
| lifecycle_changed env b st :
    is_clustered env b -> lifecycle_step self (true, st) (true, changed self b st)
| lifecycle_departed established st :
    lifecycle_step self (established, st) (false, departed self st).

(** *** Observations on the state *)

(** The payloads submitted one after the other to [data_changed] under one
    id, with the answers given. *)
Fixpoint submit_all (data_id : string) (payloads : list (gmap string setting))
    (st : unit_state) : list bool * unit_state :=
  match payloads with
  | [] => ([], st)
  | data :: rest =>
      let '(b, st1) := data_changed data_id data st in
      let '(bs, st2) := submit_all data_id rest st1 in
      (b :: bs, st2)
  end.

(** The answers the contract of the gate prescribes, [last] being the
    payload last seen, if any. *)
Fixpoint expected_answers (last : option (gmap string setting))
    (payloads : list (gmap string setting)) : list bool :=
  match payloads with
  | [] => []
  | data :: rest => bool_decide (last ≠ Some data) :: expected_answers (Some data) rest
  end.

Definition is_set_local (c : call) : bool :=
  match c with SetLocal _ => true | _ => false end.

Definition is_set_remote (c : call) : bool :=
  match c with SetRemote _ => true | _ => false end.

Definition local_writes (st : unit_state) : nat :=
  length (filter (fun c => is_set_local c = true) (calls st)).

Definition remote_writes (st : unit_state) : nat :=
  length (filter (fun c => is_set_remote c = true) (calls st)).

(** The calls made between the state [st] and the later state [st']. *)
Definition new_calls (st st' : unit_state) : list call :=
  drop (length (calls st)) (calls st').

(** The stored registry holds [key] among its pending deletions. *)
Definition pending (key : string) (st : unit_state) : Prop :=
  ∃ crm xs, local_data st !! "resources" = Some (PDict crm) ∧
            dict_get "delete_resources" crm = Some (PList xs) ∧
            PStr key ∈ xs.

(** The group [name] of the stored registry, if any. *)
Definition stored_group (name : string) (st : unit_state) : option pyval :=
  match get_local "resources" st with
  | PDict crm =>
      match dict_get "groups" crm with
      | Some (PDict groups) => dict_get name groups
      | _ => None
      end
  | _ => None
  end.

(** Either nothing is stored under 'resources' or a valid registry is. *)
Definition store_ok (describe : ResourceDescriptor -> pyval) (st : unit_state) : Prop :=
  local_data st !! "resources" = None ∨
  ∃ crm, registry describe crm ∧ local_data st !! "resources" = Some (PDict crm).

(** A hook environment to evaluate the hooks with: one conversation on one
    relation with one remote unit, which presents [v] for 'clustered'. *)
Definition single_unit (v : relval) : hookenv :=
  HookEnv [["ha:1"]] (fun _ => ["hacluster/0"])
          (fun key _ _ => if String.eqb key "clustered" then v else RNone).

(** A description to evaluate the methods with: each resource described by
    its kind. *)
Definition describe_kind (r : ResourceDescriptor) : pyval :=
  match r with
  | VirtualIP _ _ _ _ => PStr "VirtualIP"
  | InitService _ _ _ => PStr "InitService"
  | SystemdService _ _ _ => PStr "SystemdService"
  | DNSEntry _ _ _ _ => PStr "DNSEntry"
  end.

(** The invariant kept along the relation lifecycle. *)
Definition lifecycle_inv (self : HAClusterRequires) (c : bool * unit_state) : Prop :=
  (c.1 = true -> connected self ∈ states c.2) ∧
  (available self ∈ states c.2 -> connected self ∈ states c.2).

(** The entries of the payload of [manage_resources], item by item. *)
Definition wire_entry (kv : string * (bool * string)) : option (string * setting) :=
  if kv.2.1 then Some ("json_" +:+ kv.1, SStr kv.2.2) else None.

Definition rendered (crm : CRM) : list (string * (bool * string)) :=
  map (fun '(k, v) => (k, (truthy v, dumps v))) crm.

(** *** The other methods of the class *)

Section MoreMethods.
Variable describe : ResourceDescriptor -> pyval.

Definition add_init_service (name service : string) (clone : bool)
    (st : unit_state) : result unit_state :=
  let resource_dict := get_local "resources" st in
  resources ← stored_registry resource_dict;
  resources ← add describe (InitService name service clone) resources;
  mret (set_local {["resources" := PDict resources]} st).

Definition add_systemd_service (name service : string) (clone : bool)
    (st : unit_state) : result unit_state :=
  let resource_dict := get_local "resources" st in
  resources ← stored_registry resource_dict;
  resources ← add describe (SystemdService name service clone) resources;
  mret (set_local {["resources" := PDict resources]} st).

Definition add_dnsha (name ip fqdn endpoint_type : string)
    (st : unit_state) : result unit_state :=
  let resource_dict := get_local "resources" st in
  resources ← stored_registry resource_dict;
  resources ← add describe (DNSEntry name ip fqdn endpoint_type) resources;
  let group_name := "grp_" +:+ name +:+ "_hostnames" in
  resources ←
    (if truthy resource_dict then
       let dns_resources := shared_get "resources" resource_dict resources in
       if truthy dns_resources then
         keys ← iter_keys dns_resources;
         let dns_res_group_members := filter (fun dns_res => contains "hostname" dns_res) keys in
         group group_name (sorted dns_res_group_members) resources
       else mret resources
     else mret resources);
  mret (set_local {["resources" := PDict resources]} st).
End MoreMethods.

Definition remove_init_service (name service : string) (st : unit_state)
    : result unit_state :=
  let res_key := "res_" +:+ replace "-" "_" name +:+ "_" +:+ replace "-" "_" service in
  delete_resource res_key st.

Definition remove_systemd_service (name service : string) (st : unit_state)
    : result unit_state :=
  let res_key := "res_" +:+ replace "-" "_" name +:+ "_" +:+ replace "-" "_" service in
  delete_resource res_key st.

(** *** The methods as an interface *)

(** A call of one of the methods a charm uses, with its arguments. *)
Inductive method : Type :=
| BindOn (iface : option string) (mcastport : option Z)
| ManageResources (crm : CRM)
| BindResources (iface : option string) (mcastport : option Z)
| DeleteResource (resource_name : string)
| AddVip (name vip : string) (iface netmask : option string)
| RemoveVip (name vip : string) (iface : option string)
| AddInitService (name service : string) (clone : bool)
| RemoveInitService (name service : string)
| AddSystemdService (name service : string) (clone : bool)
| RemoveSystemdService (name service : string)
| AddDnsha (name ip fqdn endpoint_type : string)
| RemoveDnsha (name endpoint_type : string).

Definition invoke (describe : ResourceDescriptor -> pyval) (self : HAClusterRequires)
    (m : method) (st : unit_state) : result unit_state :=
  match m with
  | BindOn iface mcastport => Ok (bind_on iface mcastport st)
  | ManageResources crm => Ok (manage_resources crm st)
  | BindResources iface mcastport => bind_resources iface mcastport st
  | DeleteResource resource_name => delete_resource resource_name st
  | AddVip name vip iface netmask => add_vip describe name vip iface netmask st
  | RemoveVip name vip iface => remove_vip name vip iface st
  | AddInitService name service clone => add_init_service describe name service clone st
  | RemoveInitService name service => remove_init_service name service st
  | AddSystemdService name service clone =>
      add_systemd_service describe name service clone st
  | RemoveSystemdService name service => remove_systemd_service name service st
  | AddDnsha name ip fqdn endpoint_type => add_dnsha describe name ip fqdn endpoint_type st
  | RemoveDnsha name endpoint_type => remove_dnsha self name endpoint_type st
  end.

(** The calls of a list made one after the other; the first exception ends
    the run. *)
Fixpoint invoke_all (describe : ResourceDescriptor -> pyval) (self : HAClusterRequires)
    (ms : list method) (st : unit_state) : result unit_state :=
  match ms with
  | [] => Ok st
  | m :: rest => st1 ← invoke describe self m st; invoke_all describe self rest st1
  end.

(** [remove_dnsha] reads two attributes that may be missing; the other
    methods read none. *)
Definition has_attributes (self : HAClusterRequires) (m : method) : Prop :=
  match m with
  | RemoveDnsha _ _ => is_Some (service_name self) ∧ is_Some (Requires.endpoint_type self)
  | _ => True
  end.

(** *** More observations *)

(** The stored registry declares a resource under [key]. *)
Definition declared (key : string) (st : unit_state) : Prop :=
  ∃ crm res, local_data st !! "resources" = Some (PDict crm) ∧
             dict_get "resources" crm = Some (PDict res) ∧
             is_Some (dict_get key res).

(** The payload [bind_on] builds from its arguments. *)
Definition bind_on_payload (iface : option string) (mcastport : option Z)
    : gmap string setting :=
  let relation_data : gmap string setting := ∅ in
  let relation_data :=
    match iface with
    | Some i => if truthy_str iface then <["corosync_bindiface" := SStr i]> relation_data
                else relation_data
    | None => relation_data
    end in
  match mcastport with
  | Some p => if truthy_int mcastport then <["corosync_mcastport" := SInt p]> relation_data
              else relation_data
  | None => relation_data
  end.

(** What [bind_on] and [manage_resources] do with a payload: submit it to
    [data_changed] and, when it answers true, write it locally and remotely. *)
Definition send (data_id : string) (relation_data : gmap string setting)
    (st : unit_state) : unit_state :=
  let '(has_changed, st1) := data_changed data_id relation_data st in
  if has_changed
  then set_remote relation_data (set_local (setting_val <$> relation_data) st1)
  else st1.

Definition is_write (c : call) : bool :=
  match c with
  | DataChanged _ _ => false
  | _ => true
  end.

(** The payload of [bind_on] is empty or was the last one seen. *)
Definition bind_on_settled (iface : option string) (mcastport : option Z)
    (st : unit_state) : Prop :=
  bind_on_payload iface mcastport = ∅ ∨
  seen st !! "hacluster-bind_on" = Some (bind_on_payload iface mcastport).

(** No call of the list writes relation data. *)
Definition silent (l : list call) : Prop := Forall (fun c => is_write c = false) l.

(** A hook environment with two remote units on one relation. *)
Definition two_units (v w : relval) : hookenv :=
  HookEnv [["ha:1"]] (fun _ => ["hacluster/0"; "hacluster/1"])
          (fun key unit _ =>
             if String.eqb key "clustered"
             then (if String.eqb unit "hacluster/0" then v else w)
             else RNone).

(** The methods that declare or remove a resource; the other three send
    settings to the subordinate. *)
Definition declaration (m : method) : bool :=
  match m with
  | BindOn _ _ | ManageResources _ | BindResources _ _ => false
  | _ => true
  end.

(** What the stored registry holds under a resource key, if anything. *)
Definition stored_resource (key : string) (st : unit_state) : option pyval :=
  match get_local "resources" st with
  | PDict crm =>
      match dict_get "resources" crm with
      | Some (PDict res) => dict_get key res
      | _ => None
      end
  | _ => None
  end.

(** The resource an [add_] method describes to the registry. *)
Definition descriptor (m : method) : option ResourceDescriptor :=
  match m with
  | AddVip name vip iface netmask => Some (VirtualIP name vip iface netmask)
  | AddInitService name service clone => Some (InitService name service clone)
  | AddSystemdService name service clone => Some (SystemdService name service clone)
  | AddDnsha name ip fqdn endpoint_type => Some (DNSEntry name ip fqdn endpoint_type)
  | _ => None
  end.

(** The payloads last seen by [data_changed] are held by the relation data,
    locally and remotely. *)
Definition in_sync (st : unit_state) : Prop :=
  ∀ data_id data, seen st !! data_id = Some data ->
    data ⊆ remote_data st ∧ setting_val <$> data ⊆ local_data st.

(** The same, with the ids the class uses and the keys it sends under each. *)
Definition sync_inv (st : unit_state) : Prop :=
  ∀ data_id data, seen st !! data_id = Some data ->
    ((data_id = "hacluster-bind_on" ∧
      ∀ k, is_Some (data !! k) -> k = "corosync_bindiface" ∨ k = "corosync_mcastport") ∨
     (data_id = "hacluster-manage_resources" ∧
      ∀ k, is_Some (data !! k) -> ∃ k0, k = "json_" +:+ k0)) ∧
    data ⊆ remote_data st ∧ setting_val <$> data ⊆ local_data st.

(** [c] occurs in [s]. *)
Fixpoint has_char (c : ascii) (s : string) : bool :=
  match s with
  | EmptyString => false
  | String c' s' => Ascii.eqb c' c || has_char c s'
  end.

(** Every character of [s] is a printable ASCII character. *)
Fixpoint printable (s : string) : bool :=
  match s with
  | EmptyString => true
  | String c s' => (32 <=? code c) && (code c <=? 126) && printable s'
  end.

Definition is_hex (c : ascii) : bool :=
  ((48 <=? code c) && (code c <=? 57)) || ((97 <=? code c) && (code c <=? 102)).

Fixpoint all_hex (s : string) : bool :=
  match s with
  | EmptyString => true
  | String c s' => is_hex c && all_hex s'
  end.

End Requires.

Import Py Common Reactive Requires.

(** * Properties *)

(** Membership of a call in an explicit list of calls of other kinds. *)
Ltac absent_call :=
  let Hin := fresh "Hin" in
  intros Hin;
  repeat (apply elem_of_cons in Hin as [Hin|Hin]; [discriminate Hin|]);
  by apply elem_of_nil in Hin.

(** ** Registries *)

(** A valid registry consists of its three sections, in the order the
    constructor creates them. *)
Lemma registry_shape describe crm :
  registry describe crm ->
  ∃ res dels grps,
    crm = [("resources", PDict res); ("delete_resources", PList dels);
           ("groups", PDict grps)].
Proof.
  induction 1 as [|crm _ IH|r crm crm' _ IH Hop|name ms crm crm' _ IH Hop
                 |name crm crm' _ IH Hop].
  - by exists [], [], [].
  - destruct IH as (res & dels & grps & ->). by exists res, dels, grps.
  - destruct IH as (res & dels & grps & ->).
    unfold add, section_set in Hop; simpl in Hop. injection Hop as <-.
    by eexists _, _, _.
  - destruct IH as (res & dels & grps & ->).
    unfold group, section_set in Hop; simpl in Hop. injection Hop as <-.
    by eexists _, _, _.
  - destruct IH as (res & dels & grps & ->).
    unfold add_delete_resource in Hop; simpl in Hop. injection Hop as <-.
    destruct (existsb _ _); by eexists _, _, _.
Qed.

Lemma crm_init_registry describe crm :
  registry describe crm -> crm_init crm = crm.
Proof. intros (res & dels & grps & ->)%registry_shape. reflexivity. Qed.

Lemma stored_registry_registry describe crm :
  registry describe crm -> stored_registry (PDict crm) = Ok crm.
Proof.
  intros Hreg. unfold stored_registry.
  pose proof (crm_init_registry _ _ Hreg) as Hinit.
  pose proof (registry_shape _ _ Hreg) as (res & dels & grps & ->).
  simpl. by rewrite Hinit.
Qed.

Lemma lookup_set_local k v st :
  local_data (set_local {[k := v]} st) !! k = Some v.
Proof.
  unfold set_local; simpl.
  by rewrite lookup_union_l', lookup_singleton_eq; [|rewrite lookup_singleton_eq].
Qed.

Lemma get_local_set_local k v st :
  get_local k (set_local {[k := v]} st) = v.
Proof. unfold get_local. by rewrite lookup_set_local. Qed.

(** After a deletion is recorded in a valid store, the key is pending and
    the store is still valid. *)
Lemma delete_resource_pending describe key st :
  store_ok describe st ->
  ∃ st', delete_resource key st = Ok st' ∧ pending key st' ∧ store_ok describe st'.
Proof.
  intros Hst.
  assert (∃ crm, registry describe crm ∧
                 stored_registry (get_local "resources" st) = Ok crm) as (crm & Hreg & Hcrm).
  { destruct Hst as [Hnone|(crm & Hreg & Hsome)]; unfold get_local.
    - rewrite Hnone. exists (crm_init []). split; [constructor|done].
    - rewrite Hsome. exists crm. split; [done|].
      pose proof (registry_shape _ _ Hreg) as (res & dels & grps & ->). done. }
  pose proof (registry_shape _ _ Hreg) as (res & dels & grps & Hshape).
  unfold delete_resource. rewrite Hcrm. cbn [mbind result_bind].
  destruct (add_delete_resource key crm) as [crm'|e] eqn:Hdel.
  2:{ subst crm. unfold add_delete_resource in Hdel; simpl in Hdel. done. }
  exists (set_local {["resources" := PDict crm']} st). split; [done|].
  pose proof (lookup_set_local "resources" (PDict crm') st) as Hlook.
  split.
  - subst crm. unfold add_delete_resource in Hdel; simpl in Hdel.
    injection Hdel as <-.
    destruct (existsb (is_str key) dels) eqn:Hex.
    + eexists _, dels. split; [exact Hlook|]. split; [done|].
      apply existsb_exists in Hex as (x & Hin & Hx).
      destruct x; try done. simpl in Hx. apply String.eqb_eq in Hx as ->.
      by apply list_elem_of_In.
    + eexists _, (dels ++ [PStr key]). split; [exact Hlook|]. split; [done|].
      apply elem_of_app. right. by apply list_elem_of_singleton.
  - right. exists crm'. split; [|exact Hlook].
    by eapply registry_delete.
Qed.

(** ** The digest and the serialization on known values *)

Example sha1_empty :
  Sha1.hexdigest EmptyString = "da39a3ee5e6b4b0d3255bfef95601890afd80709".
Proof. vm_compute. reflexivity. Qed.

Example sha1_abc : Sha1.hexdigest "abc" = "a9993e364706816aba3e25717850c26c9cd0d89d".
Proof. vm_compute. reflexivity. Qed.

Example sha1_two_blocks :
  Sha1.hexdigest "abcdbcdecdefdefgefghfghighijhijkijkljklmklmnlmnomnopnopq"
  = "84983e441c3bd26ebaae4aa1f95129e5e54670f1".
Proof. vm_compute. reflexivity. Qed.

Example sha1_address : Sha1.hexdigest "10.0.0.5" = "00d735369988d4bbd0d404a166a6f8b871027763".
Proof. vm_compute. reflexivity. Qed.

Example dumps_list : dumps (PList [PInt 1; PBool true; PNone; PInt (-5)]) = "[1, true, null, -5]".
Proof. vm_compute. reflexivity. Qed.

Example dumps_sorts_keys :
  dumps (PDict [("b", PList []); ("a", PDict [("z", PInt 0); ("y", PNone)])])
  = "{" +:+ quote "a" +:+ ": {" +:+ quote "y" +:+ ": null, " +:+ quote "z" +:+ ": 0}, "
    +:+ quote "b" +:+ ": []}".
Proof. vm_compute. reflexivity. Qed.

(** ** Removing resources *)

Lemma hex_word_length x : String.length (Sha1.hex_word x) = 8%nat.
Proof. reflexivity. Qed.

Lemma take_str_length n s :
  (n <= String.length s)%nat -> String.length (take_str n s) = n.
Proof.
  revert s; induction n as [|n IH]; intros [|c s] Hle; simpl in *; try lia.
  rewrite IH; lia.
Qed.

Lemma length_append s t :
  String.length (s +:+ t) = (String.length s + String.length t)%nat.
Proof. induction s as [|c s IH]; simpl; [done|by rewrite IH]. Qed.

Lemma hexdigest_length s : String.length (Sha1.hexdigest s) = 40%nat.
Proof. unfold Sha1.hexdigest. by rewrite !length_append, !hex_word_length. Qed.

(** C7: without an interface (or with an empty one, which Python takes for
    none), [remove_vip name vip] deletes the key res_<name>_<hash7>_vip, where
    hash7 is the first seven characters of the SHA-1 hex digest of the
    address; with an interface it deletes res_<name>_<iface>_vip.  On a valid
    store the call succeeds and leaves that key among the pending deletions. *)
Theorem remove_vip_key describe name vip st :
  store_ok describe st ->
  let hash7 := take_str 7 (Sha1.hexdigest vip) in
  let key_of nic_name := "res_" +:+ name +:+ "_" +:+ nic_name +:+ "_vip" in
  String.length hash7 = 7%nat ∧
  remove_vip name vip None st = delete_resource (key_of hash7) st ∧
  remove_vip name vip (Some EmptyString) st = delete_resource (key_of hash7) st ∧
  (∃ st', remove_vip name vip None st = Ok st' ∧ pending (key_of hash7) st') ∧
  (∀ iface, iface ≠ EmptyString ->
     remove_vip name vip (Some iface) st = delete_resource (key_of iface) st ∧
     ∃ st', remove_vip name vip (Some iface) st = Ok st' ∧ pending (key_of iface) st').
Proof.
  intros Hst hash7 key_of. split; [|split; [|split; [|split]]]; [| done | done | |].
  - apply take_str_length. rewrite hexdigest_length. lia.
  - destruct (delete_resource_pending describe (key_of hash7) st Hst) as (st' & H1 & H2 & _).
    exists st'. by split.
  - intros iface Hiface.
    assert (remove_vip name vip (Some iface) st = delete_resource (key_of iface) st) as Heq.
    { unfold remove_vip, truthy_str.
      destruct (String.eqb_spec iface EmptyString) as [->|_]; done. }
    split; [done|].
    destruct (delete_resource_pending describe (key_of iface) st Hst) as (st' & H1 & H2 & _).
    exists st'. by rewrite Heq.
Qed.

Lemma remove_vip_key_witness :
  store_ok describe_kind initial ∧
  ∃ st', remove_vip "neutron" "10.0.0.5" None initial = Ok st' ∧
         pending "res_neutron_00d7353_vip" st'.
Proof.
  split; [by left|].
  exact (proj1 (proj2 (proj2 (proj2
    (remove_vip_key describe_kind "neutron" "10.0.0.5" initial (or_introl eq_refl)))))).
Defined.

(** C8: [remove_dnsha] formats the key it deletes from the attributes
    [service_name] (with its hyphens turned into underscores) and
    [endpoint_type] of the instance; the parameters [name] and [endpoint_type]
    have no influence on the outcome, and on a valid store the key
    res_<service_name>_<endpoint_type>_hostname ends up pending. *)
Theorem remove_dnsha_key describe self sn et name endpoint_type st :
  service_name self = Some sn ->
  Requires.endpoint_type self = Some et ->
  store_ok describe st ->
  let key := "res_" +:+ replace "-" "_" sn +:+ "_" +:+ et +:+ "_hostname" in
  remove_dnsha self name endpoint_type st = delete_resource key st ∧
  (∃ st', remove_dnsha self name endpoint_type st = Ok st' ∧ pending key st') ∧
  ∀ name' endpoint_type',
    remove_dnsha self name' endpoint_type' st = remove_dnsha self name endpoint_type st.
Proof.
  intros Hsn Het Hst key.
  assert (remove_dnsha self name endpoint_type st = delete_resource key st) as Heq.
  { unfold remove_dnsha. by rewrite Hsn, Het. }
  split; [done|]. split; [|done].
  destruct (delete_resource_pending describe key st Hst) as (st' & H1 & H2 & _).
  exists st'. by rewrite Heq.
Qed.

Lemma remove_dnsha_key_witness :
  let self := Self "ha" (Some "my-service") (Some "public") in
  remove_dnsha self "other" "admin" initial
  = delete_resource "res_my_service_public_hostname" initial ∧
  remove_dnsha self "another" "internal" initial
  = remove_dnsha self "other" "admin" initial.
Proof.
  intros self.
  pose proof (remove_dnsha_key describe_kind self "my-service" "public" "other" "admin"
                initial eq_refl eq_refl (or_introl eq_refl)) as (H1 & _ & H3).
  split; [exact H1|exact (H3 "another" "internal")].
Defined.

(** ** Settings sent to the subordinate *)

(** C10: [bind_on] called with neither an interface nor a port leaves the
    whole state as it is: nothing is written to the local or to the remote
    relation data, [data_changed] is not consulted, and what it remembers
    for 'hacluster-bind_on' stays. *)
Theorem bind_on_nothing st :
  let st' := bind_on None None st in
  local_data st' = local_data st ∧
  remote_data st' = remote_data st ∧
  seen st' !! "hacluster-bind_on" = seen st !! "hacluster-bind_on" ∧
  calls st' = calls st ∧
  st' = st.
Proof. by repeat split. Qed.

(** What [bind_on] does when a port is given: the payload it submits to the
    gate holds the port, and it is the payload written when the gate opens. *)
Lemma bind_on_port iface p st :
  p ≠ 0 ->
  ∃ relation_data,
    relation_data !! "corosync_mcastport" = Some (SInt p) ∧
    (bind_on iface (Some p) st
     = let '(has_changed, st1) := data_changed "hacluster-bind_on" relation_data st in
       if has_changed
       then set_remote relation_data (set_local (setting_val <$> relation_data) st1)
       else st1).
Proof.
  intros Hp. unfold bind_on, truthy_int.
  destruct (Z.eqb_spec p 0) as [|_]; [done|]. cbn [negb].
  set (rd0 := match iface with
              | Some i => if truthy_str iface
                          then <["corosync_bindiface" := SStr i]> (∅ : gmap string setting)
                          else ∅
              | None => ∅
              end).
  exists (<["corosync_mcastport" := SInt p]> rd0). split.
  - apply lookup_insert_eq.
  - rewrite bool_decide_eq_true_2; [done|]. apply insert_non_empty.
Qed.

Lemma new_calls_app st st' l : calls st' = calls st ++ l -> new_calls st st' = l.
Proof. unfold new_calls. intros ->. by rewrite drop_app_length. Qed.

Lemma bind_on_calls iface mcastport st :
  ∃ l, calls (bind_on iface mcastport st) = calls st ++ l ∧
       ∀ data, DataChanged "hacluster-manage_resources" data ∉ l.
Proof.
  unfold bind_on.
  destruct (bool_decide _).
  - unfold data_changed. destruct (bool_decide _); simpl.
    + eexists. split; [by rewrite <-!app_assoc|].
      intros data. simpl. absent_call.
    + eexists. split; [done|]. intros data. absent_call.
  - exists []. split; [by rewrite app_nil_r|]. intros data. apply not_elem_of_nil.
Qed.

(** C9: with [mcastport] left to [None], [bind_resources] passes 4440 to
    [bind_on]: the payload submitted under 'hacluster-bind_on', which is the
    one written to the local and remote data when the gate opens, holds
    corosync_mcastport = 4440.  [manage_resources] runs only when a true
    value is stored under 'resources': otherwise the call amounts to
    [bind_on] alone, and whenever the gate of 'hacluster-manage_resources' was
    consulted there was such a value. *)
Theorem bind_resources_default_port iface st :
  let resources_dict := get_local "resources" st in
  let st1 := bind_on iface (Some 4440) st in
  bind_resources iface None st
  = (if truthy resources_dict
     then resources ← crm_of resources_dict; mret (manage_resources resources st1)
     else mret st1) ∧
  (∃ relation_data,
     relation_data !! "corosync_mcastport" = Some (SInt 4440) ∧
     (new_calls st st1
      = [DataChanged "hacluster-bind_on" relation_data;
         SetLocal (setting_val <$> relation_data); SetRemote relation_data]
      ∨ new_calls st st1 = [DataChanged "hacluster-bind_on" relation_data])) ∧
  (truthy resources_dict = false -> bind_resources iface None st = Ok st1) ∧
  (∀ st' data,
     bind_resources iface None st = Ok st' ->
     DataChanged "hacluster-manage_resources" data ∈ new_calls st st' ->
     ∃ d, local_data st !! "resources" = Some d ∧ truthy d = true).
Proof.
  intros resources_dict st1. split; [done|]. split; [|split].
  - destruct (bind_on_port iface 4440 st) as (rd & Hport & Hbind); [done|].
    exists rd. split; [done|]. subst st1. rewrite Hbind.
    unfold data_changed. destruct (bool_decide _); [left|right];
      apply new_calls_app; simpl; by rewrite <-?app_assoc.
  - intros Hfalse. unfold bind_resources. fold resources_dict. by rewrite Hfalse.
  - intros st' data Hrun Hin.
    destruct (truthy resources_dict) eqn:Htruthy.
    + subst resources_dict. unfold get_local in Htruthy.
      destruct (local_data st !! "resources") as [d|]; [by exists d|done].
    + exfalso. unfold bind_resources in Hrun. fold resources_dict in Hrun.
      rewrite Htruthy in Hrun. injection Hrun as <-.
      destruct (bind_on_calls iface (Some 4440) st) as (l & Hl & Hno).
      rewrite (new_calls_app _ _ _ Hl) in Hin. by apply (Hno data).
Qed.

Lemma bind_resources_default_port_witness :
  bind_resources (Some "eth0") None initial = Ok (bind_on (Some "eth0") (Some 4440) initial) ∧
  remote_data (bind_on (Some "eth0") (Some 4440) initial) !! "corosync_mcastport"
  = Some (SInt 4440).
Proof.
  split.
  - exact (proj1 (proj2 (proj2 (bind_resources_default_port (Some "eth0") initial))) eq_refl).
  - vm_compute. reflexivity.
Defined.

(** ** The change-detection gate *)

Lemma submit_all_answers data_id payloads st :
  (submit_all data_id payloads st).1 = expected_answers (seen st !! data_id) payloads.
Proof.
  revert st; induction payloads as [|data rest IH]; intros st; [done|].
  cbn [submit_all expected_answers]. unfold data_changed at 1.
  specialize (IH (UnitState (states st) (local_data st) (remote_data st)
                    (<[data_id := data]> (seen st))
                    (calls st ++ [DataChanged data_id data]))).
  destruct (submit_all data_id rest _) as [bs st2]. simpl in *.
  by rewrite IH, lookup_insert_eq.
Qed.

Lemma manage_resources_seen crm st :
  seen (manage_resources crm st) !! "hacluster-manage_resources" = Some (wire crm ∅).
Proof.
  unfold manage_resources, data_changed.
  destruct (bool_decide _); simpl; apply lookup_insert_eq.
Qed.

Lemma manage_resources_writes crm st :
  (local_writes (manage_resources crm st) <= local_writes st + 1)%nat ∧
  (remote_writes (manage_resources crm st) <= remote_writes st + 1)%nat.
Proof.
  unfold manage_resources, data_changed, local_writes, remote_writes.
  destruct (bool_decide _); simpl; rewrite ?filter_app, ?length_app; simpl; lia.
Qed.

(** C5: [data_changed] answers true the first time an id is seen and
    whenever the payload differs from the one last seen under that id, and
    false otherwise, along any sequence of payloads; hence of two consecutive
    calls of [manage_resources] with registries of identical serialized
    payload the second one only consults the gate, so that local and remote
    data are written at most once. *)
Theorem gate_opens_once data_id data payloads crm1 crm2 st :
  wire crm1 ∅ = wire crm2 ∅ ->
  ((data_changed data_id data st).1 = true
   ↔ seen st !! data_id = None ∨ ∃ last, seen st !! data_id = Some last ∧ last ≠ data) ∧
  seen (data_changed data_id data st).2 !! data_id = Some data ∧
  (submit_all data_id payloads st).1 = expected_answers (seen st !! data_id) payloads ∧
  let st1 := manage_resources crm1 st in
  let st2 := manage_resources crm2 st1 in
  new_calls st1 st2 = [DataChanged "hacluster-manage_resources" (wire crm2 ∅)] ∧
  local_data st2 = local_data st1 ∧
  remote_data st2 = remote_data st1 ∧
  (local_writes st2 <= local_writes st + 1)%nat ∧
  (remote_writes st2 <= remote_writes st + 1)%nat.
Proof.
  intros Hwire. split; [|split; [|split]].
  - unfold data_changed; simpl. rewrite bool_decide_eq_true.
    destruct (seen st !! data_id) as [last|]; split.
    + intros Hne. right. exists last. split; [done|]. congruence.
    + intros [|(last' & [= <-] & Hne)]; [done|]. congruence.
    + by left.
    + done.
  - apply lookup_insert_eq.
  - apply submit_all_answers.
  - intros st1 st2.
    assert (st2 = UnitState (states st1) (local_data st1) (remote_data st1)
                    (<["hacluster-manage_resources" := wire crm2 ∅]> (seen st1))
                    (calls st1 ++ [DataChanged "hacluster-manage_resources" (wire crm2 ∅)]))
      as Hst2.
    { subst st2. unfold manage_resources at 1, data_changed.
      subst st1. rewrite manage_resources_seen, Hwire.
      rewrite bool_decide_eq_false_2; [done|]. by intros []. }
    pose proof (manage_resources_writes crm1 st) as [Hl Hr]. fold st1 in Hl, Hr.
    rewrite Hst2. split; [by apply new_calls_app|].
    split; [done|]. split; [done|].
    unfold local_writes, remote_writes in *; simpl.
    rewrite !filter_app, !length_app; simpl. lia.
Qed.

Lemma gate_opens_once_witness :
  let crm1 := [("resources", PDict [("res_a", PStr "x"); ("res_b", PStr "y")])] in
  let crm2 := [("groups", PDict []); ("resources", PDict [("res_b", PStr "y"); ("res_a", PStr "x")])] in
  wire crm1 ∅ = wire crm2 ∅ ∧
  local_writes (manage_resources crm2 (manage_resources crm1 initial)) = 1%nat ∧
  (local_writes (manage_resources crm2 (manage_resources crm1 initial))
   <= local_writes initial + 1)%nat.
Proof.
  intros crm1 crm2.
  assert (wire crm1 ∅ = wire crm2 ∅) as Hwire by (vm_compute; reflexivity).
  split; [exact Hwire|]. split; [vm_compute; reflexivity|].
  pose proof (gate_opens_once "hacluster-manage_resources" ∅ [] crm1 crm2 initial Hwire)
    as (_ & _ & _ & H).
  exact (proj1 (proj2 (proj2 (proj2 H)))).
Defined.

(** ** Rebuilding the registry from the local data *)

(** C4: a valid registry stored under 'resources' and rebuilt the way
    [bind_resources] and the other methods rebuild it (the constructor applied
    to the items read back from the local data) is the registry that was
    stored: same resources, same groups, same pending deletions. *)
Theorem registry_roundtrip describe crm st :
  registry describe crm ->
  ∃ crm',
    stored_registry (get_local "resources" (set_local {["resources" := PDict crm]} st))
    = Ok crm' ∧
    dict_get "resources" crm' = dict_get "resources" crm ∧
    dict_get "groups" crm' = dict_get "groups" crm ∧
    dict_get "delete_resources" crm' = dict_get "delete_resources" crm ∧
    crm' = crm.
Proof.
  intros Hreg. exists crm.
  assert (stored_registry (get_local "resources" (set_local {["resources" := PDict crm]} st))
          = Ok crm) as ->.
  { rewrite get_local_set_local. by eapply stored_registry_registry. }
  done.
Qed.

Lemma registry_roundtrip_witness :
  let crm := [("resources", PDict [("res_neutron_eth0_vip", PStr "VirtualIP")]);
              ("delete_resources", PList [PStr "res_nova_eth1_vip"]);
              ("groups", PDict [("grp_neutron_vips", PList [PStr "res_neutron_eth0_vip"])])] in
  registry describe_kind crm ∧
  stored_registry (get_local "resources" (set_local {["resources" := PDict crm]} initial))
  = Ok crm.
Proof.
  intros crm.
  assert (registry describe_kind crm) as Hreg.
  { set (crm1 := [("resources", PDict [("res_neutron_eth0_vip", PStr "VirtualIP")]);
                   ("delete_resources", PList []); ("groups", PDict [])]).
    set (crm2 := [("resources", PDict [("res_neutron_eth0_vip", PStr "VirtualIP")]);
                   ("delete_resources", PList []);
                   ("groups", PDict [("grp_neutron_vips",
                                      PList [PStr "res_neutron_eth0_vip"])])]).
    apply (registry_delete _ "res_nova_eth1_vip" crm2); [|reflexivity].
    apply (registry_group _ "grp_neutron_vips" ["res_neutron_eth0_vip"] crm1);
      [|reflexivity].
    apply (registry_add _ (VirtualIP "neutron" "10.0.0.5" (Some "eth0") None) (crm_init []));
      [|reflexivity].
    apply (registry_stored _ (crm_init [])), registry_fresh. }
  split; [exact Hreg|].
  destruct (registry_roundtrip describe_kind crm initial Hreg) as (crm' & Hrun & _ & _ & _ & ->).
  exact Hrun.
Defined.

(** ** Reading the clustered flag *)

Lemma remote_values_presented key env :
  remote_values key RNone env = filter (fun v => rtruthy v = true) (presented key env).
Proof.
  unfold remote_values, presented.
  induction (conversations env) as [|conversation cs IHc]; [done|].
  cbn [flat_map]. rewrite filter_app, <-IHc. f_equal. clear IHc.
  induction conversation as [|relation_id rs IHr]; [done|].
  cbn [flat_map]. rewrite filter_app, <-IHr. f_equal. clear IHr.
  induction (related_units env relation_id) as [|unit us IHu]; [done|].
  cbn [flat_map map]. unfold ror.
  destruct (rtruthy (relation_get env key unit relation_id)) eqn:Ht; simpl.
  - rewrite Ht, filter_cons_True, <-IHu; done.
  - rewrite filter_cons_False, <-IHu; [done|]. by rewrite Ht.
Qed.


Lemma lower_char_ci a b :
  word_letter b -> Ascii.eqb (lower_char a) b = same_char_ci a b.
Proof.
  unfold word_letter. intros Hb.
  repeat (apply elem_of_cons in Hb as [->|Hb]);
    [..|by apply elem_of_nil in Hb];
    destruct a as [[] [] [] [] [] [] [] []]; vm_compute; reflexivity.
Qed.


Lemma lower_eqb_ci t s : word t -> String.eqb (lower s) t = equal_ci s t.
Proof.
  revert s; induction t as [|b t IH]; intros [|a s] Hw; try done.
  destruct Hw as [Hb Hw]. simpl. by rewrite lower_char_ci, IH.
Qed.

Lemma is_clustered_from_meaning v :
  rtruthy v = true -> is_clustered_from [v] = clustered_meaning v.
Proof.
  destruct v as [|b|s]; try done. intros _. simpl.
  rewrite !lower_eqb_ci; [done|unfold word, word_letter..];
    repeat split; repeat first [by left|right].
Qed.

Lemma falsy_meaning v : rtruthy v = false -> clustered_meaning v = false.
Proof.
  destruct v as [|b|s]; try done. simpl.
  destruct (String.eqb_spec s EmptyString) as [->|]; done.
Qed.

(** When every unit presents the same value, the distinct true values form
    the list of that value, or the empty list. *)
Lemma uniform_listing key env v l :
  (rtruthy v = true -> v ∈ presented key env) ->
  (∀ x, x ∈ presented key env -> x = v) ->
  get_remote_all key RNone env l ->
  l = if rtruthy v then [v] else [].
Proof.
  intros Hv Hall [Hnd Hl].
  assert (∀ x, x ∈ l ↔ x = v ∧ rtruthy v = true) as Hl'.
  { intros x. rewrite Hl, remote_values_presented, list_elem_of_filter.
    split.
    - intros [Ht Hx]. apply Hall in Hx as ->. done.
    - intros [-> Ht]. split; [done|by apply Hv]. }
  destruct (rtruthy v) eqn:Ht.
  - destruct l as [|x l].
    + exfalso. eapply not_elem_of_nil, Hl'. done.
    + assert (x = v) as -> by (apply Hl'; left).
      f_equal. destruct l as [|y l]; [done|].
      assert (y = v) as -> by (apply Hl'; right; left).
      apply NoDup_cons in Hnd as [Hnot _]. destruct Hnot. left.
  - destruct l as [|x l]; [done|].
    assert (x ∈ x :: l) as Hx by left. apply Hl' in Hx as [_ ?]. done.
Qed.

Lemma listing_exists key env : ∃ l, get_remote_all key RNone env l.
Proof.
  exists (remove_dups (remote_values key RNone env)). split.
  - apply NoDup_remove_dups.
  - intros v. apply elem_of_remove_dups.
Qed.

(** C3: when the remote side presents one value for 'clustered' (the same
    for every related unit, as with the single subordinate unit; a true value
    is presented by at least one unit), [is_clustered] returns the reading of
    that value: true for the boolean true and for a string equal, up to case,
    to true or to yes; false for any other string such as false, for the
    empty string and when the key is absent. *)
Theorem is_clustered_reads_value env v :
  (rtruthy v = true -> v ∈ presented "clustered" env) ->
  (∀ x, x ∈ presented "clustered" env -> x = v) ->
  is_clustered env (clustered_meaning v) ∧
  (∀ b, is_clustered env b -> b = clustered_meaning v) ∧
  (v = RBool true -> is_clustered env true) ∧
  (∀ s, v = RStr s -> equal_ci s "true" = true ∨ equal_ci s "yes" = true ->
        is_clustered env true) ∧
  (v = RStr "false" ∨ v = RNone ∨ v = RStr EmptyString -> is_clustered env false).
Proof.
  intros Hv Hall.
  assert (∀ l, get_remote_all "clustered" RNone env l ->
               is_clustered_from l = clustered_meaning v) as Hread.
  { intros l Hl. rewrite (uniform_listing _ _ _ _ Hv Hall Hl).
    destruct (rtruthy v) eqn:Ht.
    - by apply is_clustered_from_meaning.
    - by rewrite falsy_meaning. }
  assert (is_clustered env (clustered_meaning v)) as Hmain.
  { destruct (listing_exists "clustered" env) as [l Hl].
    exists l. split; [done|]. by apply Hread. }
  split; [done|]. split; [|split; [|split]].
  - intros b (l & Hl & <-). by apply Hread.
  - intros ->. exact Hmain.
  - intros s -> Hs. replace true with (clustered_meaning (RStr s)); [done|].
    simpl. destruct Hs as [-> | ->]; [done|]. apply orb_true_r.
  - intros [->|[->| ->]]; exact Hmain.
Qed.

Lemma is_clustered_reads_value_witness :
  is_clustered (single_unit (RStr "True")) true ∧
  is_clustered (single_unit (RStr "yes")) true ∧
  is_clustered (single_unit (RBool true)) true ∧
  is_clustered (single_unit (RStr "false")) false ∧
  is_clustered (single_unit RNone) false ∧
  is_clustered (single_unit (RStr EmptyString)) false.
Proof.
  assert (∀ v, is_clustered (single_unit v) (clustered_meaning v)) as H.
  { intros v. apply (is_clustered_reads_value (single_unit v) v).
    - intros _. left.
    - intros x Hx. by apply list_elem_of_singleton in Hx. }
  repeat split; apply H.
Defined.

(** ** The connection flags *)

Lemma append_inj_l s a b : s +:+ a = s +:+ b -> a = b.
Proof. induction s as [|c s IH]; simpl; [done|]. intros [= H]. by apply IH. Qed.

Lemma available_not_connected self : available self ≠ connected self.
Proof. unfold available, connected. by intros H%append_inj_l. Qed.

(** [departed] clears both flags, whatever the state. *)
Lemma departed_clears self st :
  (available self ∉ states (departed self st)) ∧
  (connected self ∉ states (departed self st)).
Proof. unfold departed, remove_state; simpl. set_solver. Qed.

(** C2 as stated fails: the hooks taken in any order do not keep
    'available implies connected'.  Relation-changed on a fresh conversation,
    with a remote unit that says yes, raises the available flag while
    connected is not set. *)
Lemma changed_before_joined :
  let self := Self "ha" None None in
  let st := changed self true initial in
  is_clustered (single_unit (RStr "yes")) true ∧
  reachable self st ∧
  available self ∈ states st ∧
  (connected self ∉ states st) ∧
  ¬ (∀ st', reachable self st' ->
            available self ∈ states st' -> connected self ∈ states st').
Proof.
  intros self st.
  assert (is_clustered (single_unit (RStr "yes")) true) as Hyes.
  { exists [RStr "yes"]. split; [|done]. split.
    - apply NoDup_singleton.
    - intros v. reflexivity. }
  assert (reachable self st) as Hreach.
  { eapply rtc_once, step_changed, Hyes. }
  assert (available self ∈ states st) as Hav by compute_done.
  assert (connected self ∉ states st) as Hco by compute_done.
  repeat split; try done.
  intros Hinv. apply Hco, Hinv; done.
Qed.


Lemma lifecycle_step_inv self c c' :
  lifecycle_step self c c' -> lifecycle_inv self c -> lifecycle_inv self c'.
Proof.
  pose proof (available_not_connected self) as Hne.
  unfold lifecycle_inv.
  destruct 1 as [established st|env b st _|established st]; simpl; intros [H1 H2].
  - unfold joined, set_state; simpl. set_solver.
  - specialize (H1 eq_refl).
    destruct b; unfold changed, set_state, remove_state; simpl; set_solver.
  - pose proof (departed_clears self st) as [Ha Hc]. split; [done|]. by intros ?%Ha.
Qed.

(** C2, amended: along the relation lifecycle (relation-changed delivered
    only between relation-joined and relation-broken/departed), every state
    reached from the disconnected one satisfies: available implies connected;
    and the broken/departed hook clears both flags in any state. *)
Theorem lifecycle_available_connected self established st :
  rtc (lifecycle_step self) (false, initial) (established, st) ->
  (available self ∈ states st -> connected self ∈ states st) ∧
  (established = true -> connected self ∈ states st) ∧
  (∀ st0, (available self ∉ states (departed self st0)) ∧
          (connected self ∉ states (departed self st0))).
Proof.
  intros Hrun.
  assert (lifecycle_inv self (established, st)) as [H1 H2].
  { apply (rtc_ind_r (R := lifecycle_step self) (lifecycle_inv self) (false, initial));
      [| |exact Hrun].
    - split; simpl; [done|set_solver].
    - intros c c' _ Hstep IH. by eapply lifecycle_step_inv. }
  split; [exact H2|]. split; [exact H1|]. apply departed_clears.
Qed.

Lemma lifecycle_available_connected_witness :
  let self := Self "ha" None None in
  let st := changed self true (joined self initial) in
  rtc (lifecycle_step self) (false, initial) (true, st) ∧
  available self ∈ states st ∧
  connected self ∈ states st.
Proof.
  intros self st.
  assert (rtc (lifecycle_step self) (false, initial) (true, st)) as Hrun.
  { eapply rtc_l; [apply lifecycle_joined|].
    eapply rtc_once, (lifecycle_changed _ (single_unit (RStr "yes"))).
    exists [RStr "yes"]. split; [|done]. split.
    - apply NoDup_singleton.
    - intros v. reflexivity. }
  assert (available self ∈ states st) as Hav by compute_done.
  split; [exact Hrun|]. split; [exact Hav|].
  exact (proj1 (lifecycle_available_connected self true st Hrun) Hav).
Defined.

(** ** Sorting *)

Lemma ascii_compare_code a b :
  Ascii.compare a b = N.compare (N_of_ascii a) (N_of_ascii b).
Proof. reflexivity. Qed.

Lemma string_leb_trans s t u :
  String.leb s t = true -> String.leb t u = true -> String.leb s u = true.
Proof.
  unfold String.leb. revert t u.
  induction s as [|a s IH]; intros [|b t] [|c u]; simpl; try done.
  rewrite !ascii_compare_code.
  destruct (N.compare_spec (N_of_ascii a) (N_of_ascii b)) as [Hab|Hab|Hab];
    destruct (N.compare_spec (N_of_ascii b) (N_of_ascii c)) as [Hbc|Hbc|Hbc];
    destruct (N.compare_spec (N_of_ascii a) (N_of_ascii c)) as [Hac|Hac|Hac];
    try done; try lia.
  apply IH.
Qed.

Section SortFacts.
Context {A : Type} (key : A -> string).


Lemma insert_by_perm x l : insert_by key x l ≡ₚ x :: l.
Proof.
  induction l as [|y l IH]; simpl; [done|].
  destruct (String.leb (key x) (key y)); [done|].
  by rewrite IH, Permutation_swap.
Qed.

Lemma sort_by_perm l : sort_by key l ≡ₚ l.
Proof.
  induction l as [|x l IH]; simpl; [done|].
  by rewrite insert_by_perm, IH.
Qed.

Lemma insert_by_sorted x l :
  StronglySorted (key_le key) l -> StronglySorted (key_le key) (insert_by key x l).
Proof.
  induction 1 as [|y l Hl IH Hy]; simpl.
  - repeat constructor.
  - destruct (String.leb (key x) (key y)) eqn:Hxy.
    + constructor; [by constructor|].
      constructor; [done|].
      eapply Forall_impl; [exact Hy|].
      intros z Hz. by eapply string_leb_trans.
    + constructor; [done|].
      rewrite insert_by_perm. constructor; [|done].
      unfold key_le. destruct (String.leb_total (key x) (key y)); congruence.
Qed.

Lemma sort_by_sorted l : StronglySorted (key_le key) (sort_by key l).
Proof.
  induction l as [|x l IH]; simpl; [constructor|]. by apply insert_by_sorted.
Qed.

Lemma sort_by_id l : StronglySorted (key_le key) l -> sort_by key l = l.
Proof.
  induction 1 as [|x l Hl IH Hx]; simpl; [done|].
  rewrite IH. destruct l as [|y l]; [done|]. simpl.
  apply Forall_cons in Hx as [Hxy _]. unfold key_le in Hxy. by rewrite Hxy.
Qed.

Lemma sort_by_idemp l : sort_by key (sort_by key l) = sort_by key l.
Proof. apply sort_by_id, sort_by_sorted. Qed.

(** Lists with the same items, no key twice, are sorted into the same list. *)
Lemma sort_by_unique l1 l2 :
  NoDup (map key l1) -> l1 ≡ₚ l2 -> sort_by key l1 = sort_by key l2.
Proof.
  intros Hnd Hperm.
  apply (StronglySorted_unique_strong (key_le key)); [|apply sort_by_sorted..|].
  - intros x1 x2 Hx1 Hx2 H12 H21.
    rewrite sort_by_perm in Hx1. rewrite sort_by_perm, <-Hperm in Hx2.
    pose proof (String.leb_antisym _ _ H12 H21) as Hkey.
    clear -Hnd Hx1 Hx2 Hkey.
    induction l1 as [|y l IH]; [by apply elem_of_nil in Hx1|].
    simpl in Hnd. apply NoDup_cons in Hnd as [Hy Hnd].
    apply elem_of_cons in Hx1 as [->|Hx1]; apply elem_of_cons in Hx2 as [->|Hx2].
    + done.
    + destruct Hy. rewrite Hkey. by apply (list_elem_of_fmap_2 key).
    + destruct Hy. rewrite <-Hkey. by apply (list_elem_of_fmap_2 key).
    + by apply IH.
  - by rewrite !sort_by_perm.
Qed.
End SortFacts.

Lemma sorted_idemp l : sorted (sorted l) = sorted l.
Proof. apply sort_by_idemp. Qed.

(** ** Virtual IPs and their group *)

Lemma dict_get_set_eq {V} k (v : V) d : dict_get k (dict_set k v d) = Some v.
Proof.
  induction d as [|[k' v'] d IH]; simpl.
  - by rewrite String.eqb_refl.
  - destruct (String.eqb k' k) eqn:Hk; simpl.
    + by rewrite String.eqb_refl.
    + by rewrite Hk.
Qed.

Lemma dict_set_truthy k v d : truthy (PDict (dict_set k v d)) = true.
Proof. destruct d as [|[k' v'] d]; simpl; [done|]. by destruct (String.eqb k' k). Qed.

(** C1 as stated fails: the first virtual IP declared on a unit creates no
    group at all, since the group is computed only when a registry was
    already stored; and the group made by the second declaration is not
    reduced to the key of the second virtual IP. *)
Lemma first_vip_has_no_group :
  ∃ st1,
    add_vip describe_kind "neutron" "10.0.0.5" (Some "eth0") None initial = Ok st1 ∧
    stored_group "grp_neutron_vips" st1 = None ∧
    stored_group "grp_neutron_vips" st1 ≠ Some (PList [PStr "res_neutron_eth0_vip"]) ∧
    ∃ st2,
      add_vip describe_kind "nova" "10.0.0.6" None None st1 = Ok st2 ∧
      stored_group "grp_nova_vips" st2 ≠ Some (PList [PStr "res_nova_d85d4f6_vip"]).
Proof.
  eexists. split; [reflexivity|]. split; [reflexivity|]. split; [discriminate|].
  eexists. split; [vm_compute; reflexivity|].
  vm_compute. discriminate.
Qed.

(** The scenario of the two virtual IPs, whatever the registry stores as
    the description of a resource. *)
Lemma add_vip_scenario describe :
  ∃ st1 st2,
    add_vip describe "neutron" "10.0.0.5" (Some "eth0") None initial = Ok st1 ∧
    (∀ g, stored_group g st1 = None) ∧
    add_vip describe "nova" "10.0.0.6" None None st1 = Ok st2 ∧
    stored_group "grp_nova_vips" st2
    = Some (PList [PStr "res_neutron_eth0_vip"; PStr "res_nova_d85d4f6_vip"]) ∧
    stored_group "grp_neutron_vips" st2 = None.
Proof.
  eexists _, _. split; [reflexivity|]. split; [done|].
  split; [vm_compute; reflexivity|]. split; vm_compute; reflexivity.
Qed.

(** C1, amended: on a valid store [add_vip] succeeds and keeps the store
    valid.  When nothing was stored before (the registry was just
    constructed), the registry stored holds the new resource and no group at
    all.  When a registry was stored, the group grp_<name>_vips is set to the
    sorted keys containing vip of all the resources of the registry, the new
    one included.  So VirtualIP("neutron", "10.0.0.5", iface="eth0") on an
    empty store yields no group, and VirtualIP("nova", "10.0.0.6") after it
    yields the one group grp_nova_vips with both keys, whatever the registry
    stores as the description of a resource. *)
Theorem add_vip_groups describe name vip iface netmask st :
  store_ok describe st ->
  let key := resource_key (VirtualIP name vip iface netmask) in
  (∃ st',
     add_vip describe name vip iface netmask st = Ok st' ∧
     store_ok describe st' ∧
     match local_data st !! "resources" with
     | None =>
         get_local "resources" st'
         = PDict [("resources", PDict [(key, describe (VirtualIP name vip iface netmask))]);
                  ("delete_resources", PList []); ("groups", PDict [])] ∧
         ∀ g, stored_group g st' = None
     | Some _ =>
         ∃ crm' res',
           get_local "resources" st' = PDict crm' ∧
           dict_get "resources" crm' = Some (PDict res') ∧
           dict_get key res' = Some (describe (VirtualIP name vip iface netmask)) ∧
           stored_group ("grp_" +:+ name +:+ "_vips") st'
           = Some (PList (map PStr
                 (sorted (filter (fun k => contains "vip" k) (dict_keys res')))))
     end) ∧
  ∃ st1 st2,
    add_vip describe "neutron" "10.0.0.5" (Some "eth0") None initial = Ok st1 ∧
    (∀ g, stored_group g st1 = None) ∧
    add_vip describe "nova" "10.0.0.6" None None st1 = Ok st2 ∧
    stored_group "grp_nova_vips" st2
    = Some (PList [PStr "res_neutron_eth0_vip"; PStr "res_nova_d85d4f6_vip"]) ∧
    stored_group "grp_neutron_vips" st2 = None.
Proof.
  intros Hst key. split.
  - destruct Hst as [Hnone|(crm & Hreg & Hsome)].
    + rewrite Hnone.
      set (r := VirtualIP name vip iface netmask).
      set (crm1 := [("resources", PDict [(key, describe r)]);
                    ("delete_resources", PList []); ("groups", PDict [])]).
      exists (set_local {["resources" := PDict crm1]} st). split; [|split].
      * unfold add_vip, get_local. by rewrite Hnone.
      * right. exists crm1. split; [|apply lookup_set_local].
        by eapply (registry_add _ r (crm_init [])); [apply registry_fresh|].
      * split; [by rewrite get_local_set_local|].
        intros g. unfold stored_group. by rewrite get_local_set_local.
    + rewrite Hsome.
      pose proof (registry_shape _ _ Hreg) as (res & dels & grps & Hshape).
      set (r := VirtualIP name vip iface netmask).
      set (res' := dict_set key (describe r) res).
      set (members := sorted (filter (fun k => contains "vip" k) (dict_keys res'))).
      set (crm1 := [("resources", PDict res'); ("delete_resources", PList dels);
                    ("groups", PDict grps)]).
      set (crm2 := [("resources", PDict res'); ("delete_resources", PList dels);
                    ("groups", PDict (dict_set ("grp_" +:+ name +:+ "_vips")
                                        (PList (map PStr (sorted members))) grps))]).
      assert (add describe r crm = Ok crm1) as Hadd by (by rewrite Hshape).
      assert (group ("grp_" +:+ name +:+ "_vips") members crm1 = Ok crm2) as Hgroup by done.
      exists (set_local {["resources" := PDict crm2]} st). split; [|split].
      * unfold add_vip, get_local. rewrite Hsome. cbn [default from_option id].
        rewrite (stored_registry_registry _ _ Hreg).
        replace (truthy (PDict crm)) with true by (by rewrite Hshape).
        cbn [mbind result_bind]. fold r. rewrite Hadd. cbn [mbind result_bind].
        replace (shared_get "resources" (PDict crm) crm1) with (PDict res')
          by (by rewrite Hshape).
        replace (truthy (PDict res')) with true by (symmetry; apply dict_set_truthy).
        cbn [iter_keys mbind result_bind].
        fold members. by rewrite Hgroup.
      * right. exists crm2. split; [|apply lookup_set_local].
        eapply registry_group; [|exact Hgroup].
        eapply registry_add; [exact Hreg|exact Hadd].
      * exists crm2, res'. split; [by rewrite get_local_set_local|].
        split; [done|]. split; [apply dict_get_set_eq|].
        unfold stored_group. rewrite get_local_set_local. cbn.
        rewrite dict_get_set_eq. unfold members. by rewrite sorted_idemp.
  - apply add_vip_scenario.
Qed.

Lemma add_vip_groups_witness :
  store_ok describe_kind initial ∧
  ∃ st',
    add_vip describe_kind "neutron" "10.0.0.5" (Some "eth0") None initial = Ok st' ∧
    get_local "resources" st'
    = PDict [("resources", PDict [("res_neutron_eth0_vip", PStr "VirtualIP")]);
             ("delete_resources", PList []); ("groups", PDict [])].
Proof.
  split; [by left|].
  destruct (proj1 (add_vip_groups describe_kind "neutron" "10.0.0.5" (Some "eth0") None
                     initial (or_introl eq_refl))) as (st' & Hrun & _ & Hres & _).
  exists st'. split; [exact Hrun|exact Hres].
Defined.

(** ** Serialization of logically equal registries *)

(** Induction on values, with the hypotheses for the members of lists and
    mappings. *)
Lemma pyval_induction (P : pyval -> Prop) :
  P PNone ->
  (∀ b, P (PBool b)) ->
  (∀ n, P (PInt n)) ->
  (∀ s, P (PStr s)) ->
  (∀ xs, Forall P xs -> P (PList xs)) ->
  (∀ items, Forall (fun kv => P kv.2) items -> P (PDict items)) ->
  ∀ v, P v.
Proof.
  intros HNone HBool HInt HStr HList HDict.
  fix IH 1. intros [|b|n|s|xs|items].
  - exact HNone.
  - apply HBool.
  - apply HInt.
  - apply HStr.
  - apply HList. induction xs as [|x xs IHxs]; constructor; [apply IH|exact IHxs].
  - apply HDict. induction items as [|[k x] items IHitems]; constructor;
      [apply IH|exact IHitems].
Qed.

Lemma dict_get_elem {V} k (v : V) d : dict_get k d = Some v -> (k, v) ∈ d.
Proof.
  induction d as [|[k' v'] d IH]; simpl; [done|].
  destruct (String.eqb_spec k' k) as [->|_].
  - intros [= ->]. left.
  - intros H. right. by apply IH.
Qed.

(** Two mappings without repeated keys, of the same size, such that each
    item of the first has a counterpart in the second with the same image
    under [f]: their items, mapped by [f], are the same up to order. *)
Lemma items_perm {B} (f : pyval -> B) (d e : list (string * pyval)) :
  NoDup (map fst d) ->
  length d = length e ->
  (∀ k x, (k, x) ∈ d -> ∃ y, dict_get k e = Some y ∧ f x = f y) ->
  map (fun '(k, x) => (k, f x)) d ≡ₚ map (fun '(k, x) => (k, f x)) e.
Proof.
  intros Hnd Hlen Hsame.
  apply submseteq_length_Permutation; [|by rewrite !length_map, Hlen].
  apply NoDup_submseteq.
  - apply (NoDup_fmap_1 fst). rewrite <-list_fmap_compose.
    erewrite list_fmap_ext; [exact Hnd|]. by intros i [k x].
  - intros [k b] Hin. apply list_elem_of_fmap in Hin as ([k' x] & [= -> ->] & Hin).
    destruct (Hsame _ _ Hin) as (y & Hy & ->).
    apply list_elem_of_fmap. exists (k', y). split; [done|]. by apply dict_get_elem.
Qed.

Lemma wf_dict items :
  wf (PDict items) = true ->
  NoDup (map fst items) ∧ ∀ k x, (k, x) ∈ items -> wf x = true.
Proof.
  simpl. intros [Hnd Hall]%andb_true_iff. split.
  - by apply bool_decide_eq_true in Hnd.
  - intros k x Hin. rewrite forallb_forall in Hall.
    by apply (Hall (k, x)), list_elem_of_In.
Qed.

Lemma same_content_dict d e :
  same_content (PDict d) (PDict e) = true ->
  length d = length e ∧
  ∀ k x, (k, x) ∈ d -> ∃ y, dict_get k e = Some y ∧ same_content x y = true.
Proof.
  simpl. intros [Hlen Hall]%andb_true_iff. split.
  - by apply Nat.eqb_eq in Hlen.
  - intros k x Hin. rewrite forallb_forall in Hall.
    specialize (Hall (k, x)). simpl in Hall.
    destruct (dict_get k e) as [y|].
    + exists y. split; [done|]. by apply Hall, list_elem_of_In.
    + discriminate Hall. by apply list_elem_of_In.
Qed.

(** Logically equal values have the same truth value and the same
    serialization with sorted keys. *)
Lemma same_content_dumps a :
  ∀ b, wf a = true -> wf b = true -> same_content a b = true ->
       truthy a = truthy b ∧ dumps a = dumps b.
Proof.
  induction a as [|x|n|s|xs IH|d IH] using pyval_induction;
    intros [|y|m|t|ys|e] Ha Hb Hab; try done.
  - apply Bool.eqb_prop in Hab as ->. done.
  - apply Z.eqb_eq in Hab as ->. done.
  - apply String.eqb_eq in Hab as ->. done.
  - assert (map dumps xs = map dumps ys ∧ (xs = [] ↔ ys = [])) as [Hmap Hnil].
    { simpl in Ha, Hb, Hab. clear -IH Ha Hb Hab. revert ys Ha Hb Hab.
      induction IH as [|x xs Hx _ IHxs]; intros [|y ys] Ha Hb Hab; try done.
      simpl in Ha, Hb, Hab.
      apply andb_true_iff in Ha as [Hax Ha]. apply andb_true_iff in Hb as [Hby Hb].
      apply andb_true_iff in Hab as [Hxy Hab].
      destruct (Hx y Hax Hby Hxy) as [_ Hd].
      destruct (IHxs ys Ha Hb Hab) as [Hm _].
      split; [simpl; congruence|done]. }
    split.
    + destruct xs, ys; try done; exfalso; destruct Hnil as [H1 H2];
        first [by specialize (H1 eq_refl)|by specialize (H2 eq_refl)].
    + simpl. by rewrite Hmap.
  - apply wf_dict in Ha as [Hnd_d Hwf_d]. apply wf_dict in Hb as [Hnd_e Hwf_e].
    apply same_content_dict in Hab as [Hlen Hitems]. split.
    + destruct d, e; done.
    + cbn [dumps].
      assert (sort_by fst (map (fun '(k, x) => (k, dumps x)) d)
              = sort_by fst (map (fun '(k, x) => (k, dumps x)) e)) as ->; [|done].
      apply sort_by_unique.
      * rewrite map_map. erewrite map_ext; [exact Hnd_d|]. by intros [k x].
      * apply (items_perm dumps); [done..|].
        intros k x Hin. destruct (Hitems k x Hin) as (y & Hy & Hxy).
        exists y. split; [done|].
        rewrite Forall_forall in IH.
        apply (IH (k, x) Hin y); [by eapply Hwf_d|by eapply Hwf_e, dict_get_elem|done].
Qed.


Lemma insert_all_list_to_map (l : list (string * setting)) (acc : gmap string setting) :
  NoDup l.*1 ->
  fold_left (fun m kv => <[kv.1 := kv.2]> m) l acc = list_to_map l ∪ acc.
Proof.
  revert acc; induction l as [|[k v] l IH]; intros acc Hnd; simpl.
  - by rewrite (left_id_L ∅ (∪)).
  - apply NoDup_cons in Hnd as [Hk Hnd]. rewrite IH by done.
    rewrite <-insert_union_r; [by rewrite insert_union_l|].
    by apply not_elem_of_list_to_map_1.
Qed.

Lemma wire_fold crm acc :
  wire crm acc
  = fold_left (fun m kv => <[kv.1 := kv.2]> m) (omap wire_entry (rendered crm)) acc.
Proof.
  revert acc; induction crm as [|[k v] crm IH]; intros acc; [done|].
  cbn [wire rendered map omap list_omap]. unfold wire_entry at 1. simpl.
  fold (rendered crm). destruct (truthy v); simpl; apply IH.
Qed.

Lemma wire_entries_keys l :
  NoDup l.*1 -> NoDup (omap wire_entry l).*1.
Proof.
  induction l as [|[k [t s]] l IH]; simpl; [constructor|].
  intros [Hk Hnd]%NoDup_cons. unfold wire_entry at 1; simpl.
  destruct t; simpl; [|by apply IH].
  apply NoDup_cons. split; [|by apply IH].
  intros Hin. apply Hk.
  apply list_elem_of_fmap in Hin as ([k' v'] & Hk' & Hin). simpl in Hk'.
  apply list_elem_of_omap in Hin as ([k2 [t2 s2]] & Hin & Hentry).
  unfold wire_entry in Hentry; simpl in Hentry. destruct t2; [|done].
  injection Hentry as <- <-. apply append_inj_l in Hk' as ->.
  by apply (list_elem_of_fmap_2 fst) in Hin.
Qed.

Lemma rendered_keys crm : (rendered crm).*1 = map fst crm.
Proof.
  unfold rendered. rewrite <-list_fmap_compose. apply list_fmap_ext. by intros i [k v].
Qed.

(** Registries with the same content are given the same payload. *)
Lemma wire_same_content crm1 crm2 :
  wf (PDict crm1) = true ->
  wf (PDict crm2) = true ->
  same_content (PDict crm1) (PDict crm2) = true ->
  wire crm1 ∅ = wire crm2 ∅.
Proof.
  intros Hwf1 Hwf2 Hsame.
  pose proof (wf_dict _ Hwf1) as [Hnd1 Hv1]. pose proof (wf_dict _ Hwf2) as [Hnd2 Hv2].
  apply same_content_dict in Hsame as [Hlen Hitems].
  assert (rendered crm1 ≡ₚ rendered crm2) as Hperm.
  { apply (items_perm (fun v => (truthy v, dumps v))); [done..|].
    intros k x Hin. destruct (Hitems k x Hin) as (y & Hy & Hxy).
    exists y. split; [done|].
    destruct (same_content_dumps x y) as [-> ->];
      [by eapply Hv1|by eapply Hv2, dict_get_elem|done|done]. }
  rewrite !wire_fold, !insert_all_list_to_map
    by (apply wire_entries_keys; by rewrite rendered_keys).
  f_equal. apply list_to_map_proper.
  - apply wire_entries_keys. by rewrite rendered_keys.
  - by rewrite Hperm.
Qed.

(** C6: two registries with the same logical content (the same items with
    logically equal values, whatever the order in which items were added to
    the registry or to the mappings inside it) are given the same payload by
    [manage_resources]: the same 'json_'-prefixed keys, each with the very same
    JSON text; so the payload the gate remembers after [manage_resources] is
    the same for both. *)
Theorem wire_deterministic crm1 crm2 :
  wf (PDict crm1) = true ->
  wf (PDict crm2) = true ->
  same_content (PDict crm1) (PDict crm2) = true ->
  wire crm1 ∅ = wire crm2 ∅ ∧
  ∀ st1 st2,
    seen (manage_resources crm1 st1) !! "hacluster-manage_resources"
    = seen (manage_resources crm2 st2) !! "hacluster-manage_resources".
Proof.
  intros Hwf1 Hwf2 Hsame.
  pose proof (wire_same_content crm1 crm2 Hwf1 Hwf2 Hsame) as Hwire.
  split; [exact Hwire|].
  intros st1 st2. by rewrite !manage_resources_seen, Hwire.
Qed.

(** *** Registries built in different orders *)

Lemma dict_get_set_ne {V} k k' (v : V) d :
  k ≠ k' -> dict_get k' (dict_set k v d) = dict_get k' d.
Proof.
  intros Hne. induction d as [|[k0 v0] d IH]; simpl.
  - destruct (String.eqb_spec k k'); [done|done].
  - destruct (String.eqb_spec k0 k) as [->|Hk0]; simpl.
    + destruct (String.eqb_spec k k'); [done|done].
    + by rewrite IH.
Qed.

Lemma dict_get_set {V} k k' (v : V) d :
  dict_get k' (dict_set k v d) = if String.eqb k k' then Some v else dict_get k' d.
Proof.
  destruct (String.eqb_spec k k') as [->|Hne].
  - apply dict_get_set_eq.
  - by apply dict_get_set_ne.
Qed.

Lemma dict_get_None {V} k (d : list (string * V)) :
  dict_get k d = None ↔ k ∉ map fst d.
Proof.
  induction d as [|[k0 v0] d IH]; simpl.
  - split; [intros _; apply not_elem_of_nil|done].
  - rewrite not_elem_of_cons. destruct (String.eqb_spec k0 k) as [->|Hne].
    + split; [done|]. by intros [? _].
    + rewrite IH. split; [by intros ?; split; [congruence|]|by intros [_ ?]].
Qed.

Lemma dict_set_keys {V} k (v : V) d :
  map fst (dict_set k v d)
  = if dict_has k d then map fst d else map fst d ++ [k].
Proof.
  unfold dict_has. induction d as [|[k0 v0] d IH]; simpl; [done|].
  destruct (String.eqb_spec k0 k) as [->|Hne]; simpl; [done|].
  rewrite IH. by destruct (dict_get k d).
Qed.

Lemma dict_set_NoDup {V} k (v : V) d :
  NoDup (map fst d) -> NoDup (map fst (dict_set k v d)).
Proof.
  intros Hnd. rewrite dict_set_keys. unfold dict_has.
  destruct (dict_get k d) eqn:Hget; [done|].
  apply NoDup_app. split; [done|]. split; [|apply NoDup_singleton].
  intros x Hx ->%list_elem_of_singleton. by apply dict_get_None in Hget.
Qed.

Lemma dict_get_NoDup {V} k (v : V) d :
  NoDup (map fst d) -> (k, v) ∈ d -> dict_get k d = Some v.
Proof.
  induction d as [|[k0 v0] d IH]; simpl; intros Hnd Hin.
  - by apply elem_of_nil in Hin.
  - apply NoDup_cons in Hnd as [Hk0 Hnd].
    apply elem_of_cons in Hin as [[= -> ->]|Hin].
    + by rewrite String.eqb_refl.
    + destruct (String.eqb_spec k0 k) as [->|_]; [|by apply IH].
      destruct Hk0. by apply (list_elem_of_fmap_2 fst) in Hin.
Qed.

Lemma wf_dict_intro items :
  NoDup (map fst items) -> (∀ k x, (k, x) ∈ items -> wf x = true) ->
  wf (PDict items) = true.
Proof.
  intros Hnd Hall. simpl. apply andb_true_iff. split.
  - by apply bool_decide_eq_true.
  - apply forallb_forall. intros [k x] Hin. by apply (Hall k x), list_elem_of_In.
Qed.

Lemma wf_dict_set k v d :
  wf (PDict d) = true -> wf v = true -> wf (PDict (dict_set k v d)) = true.
Proof.
  intros [Hnd Hall]%wf_dict Hv. apply wf_dict_intro.
  - by apply dict_set_NoDup.
  - intros k' x Hin.
    apply (dict_get_NoDup _ _ _ (dict_set_NoDup k v d Hnd)) in Hin.
    rewrite dict_get_set in Hin. destruct (String.eqb k k').
    + by injection Hin as <-.
    + by eapply Hall, dict_get_elem.
Qed.

Lemma same_content_dict_intro d e :
  length d = length e ->
  (∀ k x, (k, x) ∈ d -> ∃ y, dict_get k e = Some y ∧ same_content x y = true) ->
  same_content (PDict d) (PDict e) = true.
Proof.
  intros Hlen Hall. simpl. apply andb_true_iff. split.
  - by apply Nat.eqb_eq.
  - apply forallb_forall. intros [k x] Hin.
    destruct (Hall k x) as (y & -> & Hxy); [by apply list_elem_of_In|done].
Qed.

Lemma same_content_refl v : wf v = true -> same_content v v = true.
Proof.
  induction v as [|b|n|s|xs IH|d IH] using pyval_induction; intros Hwf; simpl.
  - done.
  - by destruct b.
  - apply Z.eqb_refl.
  - apply String.eqb_refl.
  - simpl in Hwf. induction IH as [|x xs Hx _ IHxs]; [done|]. simpl in *.
    apply andb_true_iff in Hwf as [Hwx Hwxs]. by rewrite Hx, IHxs.
  - apply wf_dict in Hwf as [Hnd Hall]. apply same_content_dict_intro; [done|].
    intros k x Hin. exists x. split; [by apply dict_get_NoDup|].
    rewrite Forall_forall in IH. apply (IH (k, x) Hin). by eapply Hall.
Qed.

Lemma dict_get_Some_keys {V} k (d : list (string * V)) :
  k ∈ map fst d ↔ is_Some (dict_get k d).
Proof.
  destruct (dict_get k d) as [v|] eqn:Hget.
  - split; [by eexists|]. intros _.
    apply dict_get_elem in Hget. by apply (list_elem_of_fmap_2 fst) in Hget.
  - apply dict_get_None in Hget. split; [done|]. by intros [? ?].
Qed.

(** Mappings whose lookups agree, up to the content of the values, have the
    same content. *)
Lemma same_content_lookups d e :
  wf (PDict d) = true -> wf (PDict e) = true ->
  (∀ k, match dict_get k d, dict_get k e with
        | Some x, Some y => same_content x y = true
        | None, None => True
        | _, _ => False
        end) ->
  same_content (PDict d) (PDict e) = true.
Proof.
  intros [Hnd Hd]%wf_dict [Hne He]%wf_dict Hget.
  apply same_content_dict_intro.
  - assert (map fst d ≡ₚ map fst e) as Hperm.
    { apply NoDup_Permutation; [done..|]. intros k.
      rewrite !dict_get_Some_keys. specialize (Hget k).
      destruct (dict_get k d), (dict_get k e); done. }
    apply Permutation_length in Hperm. by rewrite !length_map in Hperm.
  - intros k x Hin. specialize (Hget k).
    rewrite (dict_get_NoDup _ _ _ Hnd Hin) in Hget.
    destruct (dict_get k e) as [y|]; [|done]. by exists y.
Qed.

Lemma registry_wf describe crm :
  (∀ r, wf (describe r) = true) -> registry describe crm -> wf (PDict crm) = true.
Proof.
  intros Hdesc. induction 1 as [|crm Hreg IH|r crm crm' Hreg IH Hop
                               |name ms crm crm' Hreg IH Hop|name crm crm' Hreg IH Hop].
  - done.
  - by rewrite (crm_init_registry _ _ Hreg).
  - unfold add, section_set in Hop.
    destruct (dict_get "resources" crm) as [[| | | | |res]|] eqn:Hres; try done.
    injection Hop as <-. apply wf_dict_set; [done|].
    apply wf_dict_set; [|done].
    apply wf_dict in IH as [_ IH]. by eapply IH, dict_get_elem.
  - unfold group, section_set in Hop.
    destruct (dict_get "groups" crm) as [[| | | | |grps]|] eqn:Hgrps; try done.
    injection Hop as <-. apply wf_dict_set; [done|].
    apply wf_dict_set.
    + apply wf_dict in IH as [_ IH]. by eapply IH, dict_get_elem.
    + simpl. by induction (sorted ms).
  - unfold add_delete_resource in Hop.
    destruct (dict_get "delete_resources" crm) as [[| | | |dels|]|] eqn:Hdels; try done.
    injection Hop as <-. destruct (existsb _ _); [done|].
    apply wf_dict_set; [done|].
    apply wf_dict in IH as [_ IH]. apply dict_get_elem, IH in Hdels.
    simpl in *. rewrite forallb_app, Hdels. done.
Qed.

(** Two resources with different keys added in one order or in the other
    give registries with the same content, hence the same payload. *)
Lemma add_order_same_content describe a b crm crm_ab crm_ba :
  (∀ r, wf (describe r) = true) ->
  registry describe crm ->
  resource_key a ≠ resource_key b ->
  (crm1 ← add describe a crm; add describe b crm1) = Ok crm_ab ->
  (crm1 ← add describe b crm; add describe a crm1) = Ok crm_ba ->
  wf (PDict crm_ab) = true ∧ wf (PDict crm_ba) = true ∧
  same_content (PDict crm_ab) (PDict crm_ba) = true.
Proof.
  intros Hdesc Hreg Hne Hab Hba.
  assert (registry describe crm_ab) as Hreg_ab.
  { destruct (add describe a crm) as [crm1|] eqn:H1; [|done].
    eapply registry_add; [|exact Hab].
    eapply registry_add; [exact Hreg|exact H1]. }
  assert (registry describe crm_ba) as Hreg_ba.
  { destruct (add describe b crm) as [crm1|] eqn:H1; [|done].
    eapply registry_add; [|exact Hba].
    eapply registry_add; [exact Hreg|exact H1]. }
  pose proof (registry_wf _ _ Hdesc Hreg_ab) as Hwf_ab.
  pose proof (registry_wf _ _ Hdesc Hreg_ba) as Hwf_ba.
  split; [done|]. split; [done|].
  pose proof (registry_shape _ _ Hreg) as (res & dels & grps & ->).
  unfold add, section_set in Hab, Hba. simpl in Hab, Hba.
  injection Hab as <-. injection Hba as <-.
  apply wf_dict in Hwf_ab as Hparts_ab. destruct Hparts_ab as [_ Hparts_ab].
  apply wf_dict in Hwf_ba as Hparts_ba. destruct Hparts_ba as [_ Hparts_ba].
  apply same_content_lookups; [done..|]. intros k. cbn [dict_get].
  destruct (String.eqb "resources" k).
  { apply same_content_lookups.
    - apply (Hparts_ab "resources"). left.
    - apply (Hparts_ba "resources"). left.
    - intros k0. rewrite !dict_get_set.
      assert (wf (describe a) = true ∧ wf (describe b) = true) as [Ha Hb] by done.
      destruct (String.eqb_spec (resource_key a) k0) as [Hka|Hka];
        destruct (String.eqb_spec (resource_key b) k0) as [Hkb|Hkb].
      + congruence.
      + by apply same_content_refl.
      + by apply same_content_refl.
      + destruct (dict_get k0 res) as [x|] eqn:Hx; [|done].
        apply same_content_refl.
        pose proof (registry_wf _ _ Hdesc Hreg) as [_ Hparts]%wf_dict.
        assert (wf (PDict res) = true) as [_ Hres]%wf_dict
          by (apply (Hparts "resources"); left).
        by eapply Hres, dict_get_elem. }
  destruct (String.eqb "delete_resources" k).
  { apply same_content_refl. apply (Hparts_ab "delete_resources"). right. left. }
  destruct (String.eqb "groups" k); [|done].
  apply same_content_refl. apply (Hparts_ab "groups"). right. right. left.
Qed.

(** Whatever the valid registry they are added to, two resources with
    different keys give the same payload in either order. *)
Lemma wire_add_order describe a b crm crm_ab crm_ba :
  (∀ r, wf (describe r) = true) ->
  registry describe crm ->
  resource_key a ≠ resource_key b ->
  (crm1 ← add describe a crm; add describe b crm1) = Ok crm_ab ->
  (crm1 ← add describe b crm; add describe a crm1) = Ok crm_ba ->
  wire crm_ab ∅ = wire crm_ba ∅.
Proof.
  intros Hdesc Hreg Hne Hab Hba.
  destruct (add_order_same_content describe a b crm crm_ab crm_ba)
    as (Hwf_ab & Hwf_ba & Hsame); [done..|].
  by apply wire_same_content.
Qed.

Lemma wire_deterministic_witness :
  let a := VirtualIP "neutron" "10.0.0.5" (Some "eth0") None in
  let b := InitService "neutron" "haproxy" true in
  ∃ crm1 crm2,
    (crm ← add describe_kind a (crm_init []); add describe_kind b crm) = Ok crm1 ∧
    (crm ← add describe_kind b (crm_init []); add describe_kind a crm) = Ok crm2 ∧
    crm1 ≠ crm2 ∧
    wire crm1 ∅ = wire crm2 ∅.
Proof.
  intros a b. eexists _, _. split; [reflexivity|]. split; [reflexivity|].
  split; [discriminate|].
  refine (proj1 (wire_deterministic _ _ _ _ _)); vm_compute; reflexivity.
Defined.

(** * Further properties *)

(** ** Sending a payload *)

Lemma bind_on_send iface mcastport st :
  bind_on iface mcastport st
  = if bool_decide (bind_on_payload iface mcastport ≠ ∅)
    then send "hacluster-bind_on" (bind_on_payload iface mcastport) st
    else st.
Proof. reflexivity. Qed.

Lemma manage_resources_send crm st :
  manage_resources crm st = send "hacluster-manage_resources" (wire crm ∅) st.
Proof. reflexivity. Qed.

Lemma send_seen data_id rd st :
  seen (send data_id rd st) = <[data_id := rd]> (seen st).
Proof. unfold send, data_changed. by destruct (bool_decide _). Qed.

Lemma send_states data_id rd st : states (send data_id rd st) = states st.
Proof. unfold send, data_changed. by destruct (bool_decide _). Qed.

Lemma send_local data_id rd st :
  local_data (send data_id rd st)
  = if bool_decide (seen st !! data_id ≠ Some rd)
    then (setting_val <$> rd) ∪ local_data st
    else local_data st.
Proof. unfold send, data_changed. by destruct (bool_decide _). Qed.

Lemma send_remote data_id rd st :
  remote_data (send data_id rd st)
  = if bool_decide (seen st !! data_id ≠ Some rd)
    then rd ∪ remote_data st
    else remote_data st.
Proof. unfold send, data_changed. by destruct (bool_decide _). Qed.

Lemma send_calls data_id rd st :
  calls (send data_id rd st)
  = calls st ++ DataChanged data_id rd ::
      (if bool_decide (seen st !! data_id ≠ Some rd)
       then [SetLocal (setting_val <$> rd); SetRemote rd]
       else []).
Proof.
  unfold send, data_changed. destruct (bool_decide _); simpl; by rewrite <-?app_assoc.
Qed.

(** A payload already seen is not written again. *)
Lemma send_seen_before data_id rd st :
  seen st !! data_id = Some rd ->
  local_data (send data_id rd st) = local_data st ∧
  remote_data (send data_id rd st) = remote_data st ∧
  seen (send data_id rd st) = seen st ∧
  calls (send data_id rd st) = calls st ++ [DataChanged data_id rd].
Proof.
  intros Hseen.
  rewrite send_local, send_remote, send_seen, send_calls.
  rewrite bool_decide_eq_false_2 by (by intros []).
  by rewrite insert_id.
Qed.

(** The keys of the payload of [bind_on]. *)
Lemma bind_on_payload_other iface mcastport k :
  k ≠ "corosync_bindiface" -> k ≠ "corosync_mcastport" ->
  bind_on_payload iface mcastport !! k = None.
Proof.
  intros Hi Hp. unfold bind_on_payload.
  destruct mcastport as [p|], iface as [i|]; simpl;
    repeat match goal with
           | |- context [if ?b then _ else _] => destruct b
           end;
    by rewrite ?lookup_insert_ne, ?lookup_empty by done.
Qed.

(** The keys of the payload of [manage_resources] start with json_. *)
Lemma wire_lookup_other crm acc k :
  (∀ k0, k ≠ "json_" +:+ k0) -> wire crm acc !! k = acc !! k.
Proof.
  intros Hk. revert acc. induction crm as [|[k0 v] crm IH]; intros acc; [done|].
  simpl. rewrite IH. destruct (truthy v); [|done].
  by rewrite lookup_insert_ne by (intros Heq; by apply (Hk k0)).
Qed.

Lemma resources_not_wire_key k0 : "resources" ≠ "json_" +:+ k0.
Proof. done. Qed.

Lemma bind_on_data iface mcastport st :
  let rd := bind_on_payload iface mcastport in
  let st' := bind_on iface mcastport st in
  local_data st'
  = (if bool_decide (seen st !! "hacluster-bind_on" ≠ Some rd)
     then (setting_val <$> rd) ∪ local_data st else local_data st) ∧
  remote_data st'
  = (if bool_decide (seen st !! "hacluster-bind_on" ≠ Some rd)
     then rd ∪ remote_data st else remote_data st) ∧
  states st' = states st.
Proof.
  intros rd st'. subst st'. rewrite bind_on_send. fold rd.
  destruct (bool_decide (rd ≠ ∅)) eqn:Hrd.
  - by rewrite send_local, send_remote, send_states.
  - apply bool_decide_eq_false in Hrd. apply dec_stable in Hrd. rewrite Hrd.
    rewrite fmap_empty, !(left_id_L ∅ (∪)). by destruct (bool_decide _).
Qed.

(** ** What [bind_on] sends *)

(** Case analysis on the truth of the arguments of [bind_on]. *)
Ltac payload_cases :=
  repeat (match goal with
          | |- context [?a =? 0] => destruct (a =? 0)
          | |- context [String.eqb ?a EmptyString] => destruct (String.eqb a EmptyString)
          end; simpl);
  by rewrite ?lookup_insert_ne, ?lookup_insert_eq, ?lookup_empty by done.

(** X1: [bind_on] sends its true arguments and nothing else: an interface
    that is [None] or empty and a port that is [None] or 0 are left out of
    the payload; when the payload is new the local and remote data take its
    entries and keep all their other entries, and otherwise they are left as
    they are.  So a setting sent earlier is never withdrawn. *)
Theorem bind_on_sends_true_arguments iface mcastport st :
  let rd := bind_on_payload iface mcastport in
  let st' := bind_on iface mcastport st in
  rd !! "corosync_bindiface"
  = (i ← iface; if String.eqb i EmptyString then None else Some (SStr i)) ∧
  rd !! "corosync_mcastport"
  = (p ← mcastport; if p =? 0 then None else Some (SInt p)) ∧
  (∀ k, k ≠ "corosync_bindiface" -> k ≠ "corosync_mcastport" -> rd !! k = None) ∧
  remote_data st'
  = (if bool_decide (seen st !! "hacluster-bind_on" ≠ Some rd)
     then rd ∪ remote_data st else remote_data st) ∧
  local_data st'
  = (if bool_decide (seen st !! "hacluster-bind_on" ≠ Some rd)
     then (setting_val <$> rd) ∪ local_data st else local_data st) ∧
  dom (remote_data st) ⊆ dom (remote_data st') ∧
  dom (local_data st) ⊆ dom (local_data st').
Proof.
  intros rd st'.
  destruct (bind_on_data iface mcastport st) as (Hl & Hr & _). fold rd st' in Hl, Hr.
  split; [|split; [|split; [|split; [|split; [|split]]]]]; try done.
  - subst rd. unfold bind_on_payload, truthy_int, truthy_str.
    destruct mcastport as [p|], iface as [i|]; simpl; payload_cases.
  - subst rd. unfold bind_on_payload, truthy_int, truthy_str.
    destruct mcastport as [p|], iface as [i|]; simpl; payload_cases.
  - intros k. apply bind_on_payload_other.
  - rewrite Hr. destruct (bool_decide _); [|done]. rewrite dom_union. set_solver.
  - rewrite Hl. destruct (bool_decide _); [|done]. rewrite dom_union. set_solver.
Qed.

(** ** What [manage_resources] and [bind_resources] leave alone *)

Lemma manage_resources_frame crm st k :
  (∀ k0, k ≠ "json_" +:+ k0) ->
  local_data (manage_resources crm st) !! k = local_data st !! k ∧
  remote_data (manage_resources crm st) !! k = remote_data st !! k.
Proof.
  intros Hk. rewrite manage_resources_send, send_local, send_remote.
  pose proof (wire_lookup_other crm ∅ k Hk) as Hnone. rewrite lookup_empty in Hnone.
  destruct (bool_decide _); [|done].
  rewrite !lookup_union_r; [done|done|]. by rewrite lookup_fmap, Hnone.
Qed.

Lemma bind_on_frame iface mcastport st k :
  k ≠ "corosync_bindiface" -> k ≠ "corosync_mcastport" ->
  local_data (bind_on iface mcastport st) !! k = local_data st !! k ∧
  remote_data (bind_on iface mcastport st) !! k = remote_data st !! k.
Proof.
  intros Hi Hp. destruct (bind_on_data iface mcastport st) as (-> & -> & _).
  pose proof (bind_on_payload_other iface mcastport k Hi Hp) as Hnone.
  destruct (bool_decide _); [|done].
  rewrite !lookup_union_r; [done|done|]. by rewrite lookup_fmap, Hnone.
Qed.

(** The two ways a call of [bind_resources] ends well. *)
Lemma bind_resources_inv iface mcastport st st' :
  bind_resources iface mcastport st = Ok st' ->
  let port := match mcastport with None => Some 4440 | Some _ => mcastport end in
  (truthy (get_local "resources" st) = false ∧ st' = bind_on iface port st) ∨
  (∃ items, get_local "resources" st = PDict items ∧
            st' = manage_resources (crm_init items) (bind_on iface port st)).
Proof.
  intros Hrun. cbv zeta. unfold bind_resources in Hrun.
  destruct (truthy (get_local "resources" st)) eqn:Ht.
  - right. destruct (get_local "resources" st) as [| | | | |items]; try done.
    exists items. split; [done|]. by injection Hrun as <-.
  - left. split; [done|]. by injection Hrun as <-.
Qed.

(** X2: a port given as 0 is neither replaced by the default nor sent:
    [bind_on] treats it as no port, and after [bind_resources] the local and
    remote values of corosync_mcastport are the ones from before the call. *)
Theorem bind_resources_port_zero iface st st' :
  bind_resources iface (Some 0) st = Ok st' ->
  bind_on iface (Some 0) st = bind_on iface None st ∧
  remote_data st' !! "corosync_mcastport" = remote_data st !! "corosync_mcastport" ∧
  local_data st' !! "corosync_mcastport" = local_data st !! "corosync_mcastport".
Proof.
  intros Hrun. split; [reflexivity|].
  assert (∀ k0, "corosync_mcastport" ≠ "json_" +:+ k0) as Hkey by done.
  assert (remote_data (bind_on iface (Some 0) st) !! "corosync_mcastport"
          = remote_data st !! "corosync_mcastport" ∧
          local_data (bind_on iface (Some 0) st) !! "corosync_mcastport"
          = local_data st !! "corosync_mcastport") as [Hr Hl].
  { destruct (bind_on_data iface (Some 0) st) as (-> & -> & _).
    assert (bind_on_payload iface (Some 0) !! "corosync_mcastport" = None) as Hnone.
    { unfold bind_on_payload. destruct iface as [i|]; simpl; payload_cases. }
    destruct (bool_decide _); [|done].
    split; rewrite lookup_union_r; rewrite ?lookup_fmap, ?Hnone; done. }
  apply bind_resources_inv in Hrun as [[_ ->]|(items & _ & ->)]; [done|].
  destruct (manage_resources_frame (crm_init items) (bind_on iface (Some 0) st)
              "corosync_mcastport" Hkey) as [-> ->]. done.
Qed.

Lemma bind_resources_port_zero_witness :
  ∃ st', bind_resources (Some "eth0") (Some 0) initial = Ok st' ∧
         remote_data st' !! "corosync_mcastport" = None ∧
         remote_data st' !! "corosync_bindiface" = Some (SStr "eth0").
Proof.
  eexists. split; [reflexivity|]. split.
  - rewrite (proj1 (proj2 (bind_resources_port_zero (Some "eth0") initial _ eq_refl))).
    reflexivity.
  - vm_compute. reflexivity.
Defined.

Lemma json_prefix_dec k : (∃ k0, k = "json_" +:+ k0) ∨ (∀ k0, k ≠ "json_" +:+ k0).
Proof.
  destruct k as [|c1 [|c2 [|c3 [|c4 [|c5 k]]]]]; try (right; intros k0; discriminate).
  destruct (decide (c1 = "j"%char)) as [->|?]; [|right; intros k0 [= ?]; done].
  destruct (decide (c2 = "s"%char)) as [->|?]; [|right; intros k0 [= ?]; done].
  destruct (decide (c3 = "o"%char)) as [->|?]; [|right; intros k0 [= ?]; done].
  destruct (decide (c4 = "n"%char)) as [->|?]; [|right; intros k0 [= ?]; done].
  destruct (decide (c5 = "_"%char)) as [->|?]; [|right; intros k0 [= ?]; done].
  left. by exists k.
Qed.

Lemma bind_resources_keeps_registry iface mcastport st st' :
  bind_resources iface mcastport st = Ok st' ->
  get_local "resources" st' = get_local "resources" st.
Proof.
  assert (∀ i p s, get_local "resources" (bind_on i p s) = get_local "resources" s) as Hb.
  { intros i p s. unfold get_local.
    by destruct (bind_on_frame i p s "resources") as [-> _]. }
  intros [[_ ->]|(items & _ & ->)]%bind_resources_inv; [apply Hb|].
  unfold get_local at 1.
  destruct (manage_resources_frame (crm_init items)
              (bind_on iface match mcastport with None => Some 4440 | Some _ => mcastport end st)
              "resources" resources_not_wire_key) as [-> _].
  apply Hb.
Qed.

(** X3: [bind_on], [manage_resources] and [bind_resources] leave the stored
    registry alone: the keys they write are corosync_bindiface,
    corosync_mcastport and keys starting with json_, never 'resources'. *)
Theorem settings_keep_registry iface mcastport crm st :
  get_local "resources" (bind_on iface mcastport st) = get_local "resources" st ∧
  get_local "resources" (manage_resources crm st) = get_local "resources" st ∧
  (∀ k v, local_data (manage_resources crm st) !! k = Some v ->
          local_data st !! k = Some v ∨ ∃ k0, k = "json_" +:+ k0) ∧
  (∀ st', bind_resources iface mcastport st = Ok st' ->
          get_local "resources" st' = get_local "resources" st).
Proof.
  assert (∀ i p s, get_local "resources" (bind_on i p s) = get_local "resources" s) as Hb.
  { intros i p s. unfold get_local.
    by destruct (bind_on_frame i p s "resources") as [-> _]. }
  assert (∀ c s, get_local "resources" (manage_resources c s) = get_local "resources" s) as Hm.
  { intros c s. unfold get_local.
    by destruct (manage_resources_frame c s "resources" resources_not_wire_key) as [-> _]. }
  split; [apply Hb|]. split; [apply Hm|]. split.
  - intros k v Hk.
    destruct (json_prefix_dec k) as [Hpre|Hpre]; [by right|].
    left. rewrite <-Hk. symmetry. by apply manage_resources_frame.
  - intros st' [[_ ->]|(items & _ & ->)]%bind_resources_inv; [apply Hb|].
    by rewrite Hm, Hb.
Qed.

Lemma settings_keep_registry_witness :
  let crm := [("resources", PDict [("res_a", PStr "x")])] in
  let st := set_local {["resources" := PDict crm]} initial in
  ∃ st', bind_resources (Some "eth0") None st = Ok st' ∧
         get_local "resources" st' = PDict crm ∧
         is_Some (local_data st' !! "json_resources").
Proof.
  intros crm st. eexists. split; [reflexivity|]. split.
  - by rewrite (proj2 (proj2 (proj2 (settings_keep_registry (Some "eth0") None [] st)))
                  _ eq_refl).
  - vm_compute. by eexists.
Defined.

(** ** Calling again *)

Lemma bind_on_settles iface mcastport st :
  bind_on_settled iface mcastport (bind_on iface mcastport st).
Proof.
  unfold bind_on_settled. rewrite bind_on_send.
  destruct (bool_decide _) eqn:Hrd.
  - right. by rewrite send_seen, lookup_insert_eq.
  - left. apply bool_decide_eq_false in Hrd. by apply dec_stable in Hrd.
Qed.

Lemma bind_on_settled_again iface mcastport st :
  bind_on_settled iface mcastport st ->
  let st' := bind_on iface mcastport st in
  local_data st' = local_data st ∧ remote_data st' = remote_data st ∧
  seen st' = seen st ∧ ∃ l, calls st' = calls st ++ l ∧ silent l.
Proof.
  intros Hset st'. subst st'. rewrite bind_on_send.
  destruct (bool_decide _) eqn:Hrd.
  - destruct Hset as [Hempty|Hseen].
    { apply bool_decide_eq_true in Hrd. done. }
    destruct (send_seen_before _ _ _ Hseen) as (-> & -> & -> & ->).
    repeat split. eexists. split; [done|]. by repeat constructor.
  - repeat split. exists []. split; [by rewrite app_nil_r|constructor].
Qed.

Lemma manage_resources_again crm st :
  seen st !! "hacluster-manage_resources" = Some (wire crm ∅) ->
  let st' := manage_resources crm st in
  local_data st' = local_data st ∧ remote_data st' = remote_data st ∧
  seen st' = seen st ∧ ∃ l, calls st' = calls st ++ l ∧ silent l.
Proof.
  intros Hseen st'. subst st'. rewrite manage_resources_send.
  destruct (send_seen_before _ _ _ Hseen) as (-> & -> & -> & ->).
  repeat split. eexists. split; [done|]. by repeat constructor.
Qed.

(** X4: [bind_resources] called again with the same arguments, right after a
    call that ended well, ends well and writes nothing: the local data, the
    remote data and what [data_changed] remembers stay as the first call left
    them, and the only calls made are consultations of [data_changed]. *)
Theorem bind_resources_again iface mcastport st st1 :
  bind_resources iface mcastport st = Ok st1 ->
  ∃ st2 l,
    bind_resources iface mcastport st1 = Ok st2 ∧
    local_data st2 = local_data st1 ∧
    remote_data st2 = remote_data st1 ∧
    seen st2 = seen st1 ∧
    calls st2 = calls st1 ++ l ∧
    silent l.
Proof.
  intros Hrun.
  set (port := match mcastport with None => Some 4440 | Some _ => mcastport end).
  assert (get_local "resources" st1 = get_local "resources" st) as Hres.
  { by apply (bind_resources_keeps_registry iface mcastport). }
  assert (bind_on_settled iface port st1) as Hset.
  { apply bind_resources_inv in Hrun as [[_ ->]|(items & _ & ->)]; fold port.
    - apply bind_on_settles.
    - pose proof (bind_on_settles iface port st) as [Hempty|Hseen]; [by left|right].
      by rewrite manage_resources_send, send_seen, lookup_insert_ne. }
  destruct (bind_on_settled_again iface port st1 Hset) as (Hl & Hr & Hs & l1 & Hc & Hsil).
  apply bind_resources_inv in Hrun as Hinv. fold port in Hinv.
  unfold bind_resources. fold port. rewrite Hres.
  destruct Hinv as [[Hfalse _]|(items & Hitems & Hst1)].
  - rewrite Hfalse. by eexists _, l1.
  - rewrite Hitems. destruct items as [|item items].
    { by eexists _, l1. }
    cbn [truthy crm_of mbind result_bind mret result_ret].
    set (crm := crm_init (item :: items)) in *.
    assert (seen (bind_on iface port st1) !! "hacluster-manage_resources"
            = Some (wire crm ∅)) as Hseen.
    { rewrite Hs, Hst1. apply manage_resources_seen. }
    destruct (manage_resources_again crm _ Hseen) as (Hl2 & Hr2 & Hs2 & l2 & Hc2 & Hsil2).
    eexists _, (l1 ++ l2). split; [done|].
    rewrite Hl2, Hr2, Hs2, Hc2, Hc, Hl, Hr, Hs.
    repeat split; [by rewrite app_assoc|by apply Forall_app].
Qed.

Lemma bind_resources_again_witness :
  let crm := [("resources", PDict [("res_a", PStr "x")])] in
  let st := set_local {["resources" := PDict crm]} initial in
  ∃ st1 st2,
    bind_resources (Some "eth0") None st = Ok st1 ∧
    bind_resources (Some "eth0") None st1 = Ok st2 ∧
    remote_data st2 = remote_data st1 ∧
    remote_writes st1 = 2%nat ∧ remote_writes st2 = 2%nat.
Proof.
  intros crm st.
  destruct (bind_resources (Some "eth0") None st) as [st1|e] eqn:Hrun; [|by vm_compute in Hrun].
  destruct (bind_resources_again _ _ _ _ Hrun) as (st2 & l & Hrun2 & _ & Hr & _ & Hc & Hsil).
  exists st1, st2. split; [done|]. split; [done|]. split; [done|].
  assert (remote_writes st1 = 2%nat) as H1.
  { vm_compute in Hrun. injection Hrun as <-. vm_compute. reflexivity. }
  split; [done|].
  unfold remote_writes in *. rewrite Hc, filter_app, length_app, H1.
  assert (filter (λ c, is_set_remote c = true) l = []) as ->; [|done].
  clear -Hsil. induction Hsil as [|c l Hc _ IH]; [done|].
  rewrite filter_cons_False, IH; [done|]. by destruct c.
Defined.

Lemma bind_on_sends_true_arguments_witness :
  bind_on_payload (Some "eth0") (Some 0) !! "corosync_bindiface" = Some (SStr "eth0") ∧
  bind_on_payload (Some "eth0") (Some 0) !! "corosync_mcastport" = None ∧
  bind_on_payload (Some "eth0") (Some 0) !! "resources" = None.
Proof.
  pose proof (bind_on_sends_true_arguments (Some "eth0") (Some 0) initial)
    as (H1 & H2 & H3 & _).
  split; [exact H1|]. split; [exact H2|]. by apply H3.
Defined.

(** ** The payload of [manage_resources] *)

Lemma wire_lookup crm acc k :
  NoDup (map fst crm) ->
  wire crm acc !! ("json_" +:+ k)
  = match dict_get k crm with
    | Some v => if truthy v then Some (SStr (dumps v)) else acc !! ("json_" +:+ k)
    | None => acc !! ("json_" +:+ k)
    end.
Proof.
  revert acc. induction crm as [|[k0 v0] crm IH]; intros acc Hnd; [done|].
  simpl in Hnd. apply NoDup_cons in Hnd as [Hk0 Hnd]. cbn [wire dict_get].
  rewrite IH by done. destruct (String.eqb_spec k0 k) as [->|Hne].
  - apply dict_get_None in Hk0. rewrite Hk0.
    destruct (truthy v0); [by rewrite lookup_insert_eq|done].
  - assert (acc' : (if truthy v0 then <["json_" +:+ k0 := SStr (dumps v0)]> acc else acc)
                   !! ("json_" +:+ k) = acc !! ("json_" +:+ k)).
    { destruct (truthy v0); [|done]. rewrite lookup_insert_ne; [done|].
      by intros ?%append_inj_l. }
    by rewrite acc'.
Qed.

(** X5: the payload of [manage_resources] holds, for each item of the
    registry whose value is true, the JSON text of the value under the key of
    the item prefixed by json_, and nothing else: items whose value is empty
    are left out and every key of the payload starts with json_. *)
Theorem payload_of_sections crm k :
  NoDup (map fst crm) ->
  wire crm ∅ !! ("json_" +:+ k)
  = (v ← dict_get k crm; if truthy v then Some (SStr (dumps v)) else None) ∧
  (∀ k', is_Some (wire crm ∅ !! k') -> ∃ k0, k' = "json_" +:+ k0 ∧ is_Some (dict_get k0 crm)).
Proof.
  intros Hnd. split.
  - rewrite wire_lookup by done. rewrite lookup_empty.
    destruct (dict_get k crm) as [v|]; [|done]. simpl. by destruct (truthy v).
  - intros k' Hsome. destruct (json_prefix_dec k') as [[k0 ->]|Hno].
    + exists k0. split; [done|]. rewrite wire_lookup, lookup_empty in Hsome by done.
      destruct (dict_get k0 crm); [done|]. by destruct Hsome.
    + rewrite wire_lookup_other, lookup_empty in Hsome by done. by destruct Hsome.
Qed.

Lemma payload_of_sections_witness :
  let crm := [("resources", PDict [("res_a", PStr "x")]); ("delete_resources", PList [])] in
  wire crm ∅ !! "json_delete_resources" = None ∧
  is_Some (wire crm ∅ !! "json_resources").
Proof.
  intros crm.
  assert (NoDup (map fst crm)) as Hnd by (apply (bool_decide_unpack _); vm_compute; exact I).
  split.
  - exact (proj1 (payload_of_sections crm "delete_resources" Hnd)).
  - change "json_resources" with ("json_" +:+ "resources").
    rewrite (proj1 (payload_of_sections crm "resources" Hnd)). by eexists.
Defined.

(** X6: [manage_resources] never withdraws an entry from the relation: the
    keys of the remote data only grow, and for an item of the registry that
    is missing or whose value is empty the remote (and local) entry keeps the
    value it had, so a section that became empty still shows its former
    content to the remote side. *)
Theorem manage_resources_keeps_stale crm st k :
  NoDup (map fst crm) ->
  (∀ v, dict_get k crm = Some v -> truthy v = false) ->
  remote_data (manage_resources crm st) !! ("json_" +:+ k)
  = remote_data st !! ("json_" +:+ k) ∧
  local_data (manage_resources crm st) !! ("json_" +:+ k)
  = local_data st !! ("json_" +:+ k) ∧
  dom (remote_data st) ⊆ dom (remote_data (manage_resources crm st)).
Proof.
  intros Hnd Hempty.
  assert (wire crm ∅ !! ("json_" +:+ k) = None) as Hnone.
  { rewrite wire_lookup, lookup_empty by done.
    destruct (dict_get k crm) as [v|]; [|done]. by rewrite (Hempty v). }
  rewrite manage_resources_send, send_local, send_remote.
  destruct (bool_decide _); [|done].
  split; [|split].
  - by rewrite lookup_union_r.
  - rewrite lookup_union_r; [done|]. by rewrite lookup_fmap, Hnone.
  - rewrite dom_union. set_solver.
Qed.

Lemma manage_resources_keeps_stale_witness :
  let crm1 := [("resources", PDict []); ("delete_resources", PList [PStr "res_a"])] in
  let crm2 := [("resources", PDict []); ("delete_resources", PList [])] in
  let st1 := manage_resources crm1 initial in
  is_Some (remote_data st1 !! "json_delete_resources") ∧
  remote_data (manage_resources crm2 st1) !! "json_delete_resources"
  = remote_data st1 !! "json_delete_resources".
Proof.
  intros crm1 crm2 st1. split; [vm_compute; by eexists|].
  apply (manage_resources_keeps_stale crm2 st1 "delete_resources").
  - apply (bool_decide_unpack _); vm_compute; exact I.
  - intros v Hv. vm_compute in Hv. by injection Hv as <-.
Defined.

(** ** The hooks *)

Lemma append_nil_l t : EmptyString +:+ t = t.
Proof. reflexivity. Qed.

Lemma append_cons c s t : String c s +:+ t = String c (s +:+ t).
Proof. reflexivity. Qed.

Lemma append_same_length s s' t t' :
  s +:+ t = s' +:+ t' -> String.length t = String.length t' -> s = s' ∧ t = t'.
Proof.
  revert s'. induction s as [|c s IH]; intros [|c' s'] Heq Hlen;
    rewrite ?append_nil_l, ?append_cons in Heq.
  - done.
  - exfalso. subst t. simpl in Hlen. rewrite length_append in Hlen. lia.
  - exfalso. subst t'. simpl in Hlen. rewrite length_append in Hlen. lia.
  - injection Heq as -> Heq. destruct (IH s' Heq Hlen) as [-> ->]. done.
Qed.

Lemma flags_of_other_relation self other :
  relation_name other ≠ relation_name self ->
  connected other ≠ connected self ∧ connected other ≠ available self ∧
  available other ≠ connected self ∧ available other ≠ available self.
Proof.
  intros Hne. unfold connected, available.
  repeat split; intros Heq; apply append_same_length in Heq as [? ?]; done.
Qed.

Lemma step_frame self st st' :
  step self st st' ->
  local_data st' = local_data st ∧ remote_data st' = remote_data st ∧
  seen st' = seen st ∧ calls st' = calls st ∧
  ∀ f, f ≠ connected self -> f ≠ available self -> (f ∈ states st' ↔ f ∈ states st).
Proof.
  destruct 1 as [st|env b st _|st]; repeat split; try done.
  - unfold joined, set_state; simpl. set_solver.
  - unfold joined, set_state; simpl. set_solver.
  - destruct b; done.
  - destruct b; done.
  - destruct b; done.
  - destruct b; done.
  - destruct b; unfold changed, set_state, remove_state; simpl; set_solver.
  - destruct b; unfold changed, set_state, remove_state; simpl; set_solver.
  - unfold departed, remove_state; simpl. set_solver.
  - unfold departed, remove_state; simpl. set_solver.
Qed.

(** X7: however the hooks of one relation follow each other, they change
    nothing but the two flags of that relation: the local and remote data,
    what [data_changed] remembers and the calls made stay as they are, every
    other flag keeps its value, and so do the connected and available flags
    of an instance with another relation name. *)
Theorem hooks_touch_own_flags self st st' :
  rtc (step self) st st' ->
  local_data st' = local_data st ∧ remote_data st' = remote_data st ∧
  seen st' = seen st ∧ calls st' = calls st ∧
  (∀ f, f ≠ connected self -> f ≠ available self -> (f ∈ states st' ↔ f ∈ states st)) ∧
  (∀ other, relation_name other ≠ relation_name self ->
     (connected other ∈ states st' ↔ connected other ∈ states st) ∧
     (available other ∈ states st' ↔ available other ∈ states st)).
Proof.
  intros Hrun.
  assert (local_data st' = local_data st ∧ remote_data st' = remote_data st ∧
          seen st' = seen st ∧ calls st' = calls st ∧
          ∀ f, f ≠ connected self -> f ≠ available self ->
               (f ∈ states st' ↔ f ∈ states st)) as (Hl & Hr & Hs & Hc & Hf).
  { induction Hrun as [st|st st1 st' Hstep _ IH].
    - done.
    - destruct (step_frame _ _ _ Hstep) as (Hl & Hr & Hs & Hc & Hf).
      destruct IH as (Hl' & Hr' & Hs' & Hc' & Hf').
      rewrite Hl', Hr', Hs', Hc'. repeat split; try done.
      + intros Hin. by apply Hf, Hf'.
      + intros Hin. by apply Hf', Hf. }
  repeat split; try done.
  - by apply Hf.
  - by apply Hf.
  - destruct (flags_of_other_relation self other) as (? & ? & ? & ?); [done|]. by apply Hf.
  - destruct (flags_of_other_relation self other) as (? & ? & ? & ?); [done|]. by apply Hf.
  - destruct (flags_of_other_relation self other) as (? & ? & ? & ?); [done|]. by apply Hf.
  - destruct (flags_of_other_relation self other) as (? & ? & ? & ?); [done|]. by apply Hf.
Qed.

Lemma hooks_touch_own_flags_witness :
  let ha := Self "ha" None None in
  let other := Self "ha.connected" None None in
  let st := joined other initial in
  let st' := departed ha (changed ha true (joined ha st)) in
  rtc (step ha) st st' ∧ connected other ∈ states st'.
Proof.
  intros ha other st st'.
  assert (rtc (step ha) st st') as Hrun.
  { eapply rtc_l; [apply step_joined|].
    eapply rtc_l; [apply (step_changed _ (single_unit (RStr "yes")))|].
    { exists [RStr "yes"]. split; [|done]. split; [apply NoDup_singleton|].
      intros v. reflexivity. }
    apply rtc_once, step_departed. }
  split; [exact Hrun|].
  destruct (hooks_touch_own_flags ha st st' Hrun) as (_ & _ & _ & _ & _ & Hother).
  apply (Hother other); [done|]. by compute_done.
Defined.

(** X8: the hooks absorb one another: the last relation-changed decides the
    available flag whatever the one before did, relation-joined twice is
    relation-joined once, relation-joined and relation-changed can be swapped,
    and relation-broken/departed wipes out what any hook before it did. *)
Theorem hooks_absorb self b b' st :
  changed self b (changed self b' st) = changed self b st ∧
  joined self (joined self st) = joined self st ∧
  changed self b (joined self st) = joined self (changed self b st) ∧
  departed self (joined self st) = departed self st ∧
  departed self (changed self b st) = departed self st ∧
  departed self (departed self st) = departed self st.
Proof.
  pose proof (available_not_connected self) as Hne.
  assert (∀ X Y : gset string, (∀ x, x ∈ X ↔ x ∈ Y) -> X = Y) as Hext
    by (intros X Y H; by apply set_eq).
  repeat split; destruct b, b'; unfold changed, joined, departed, set_state, remove_state;
    simpl; f_equal; apply Hext; intros x;
    destruct (decide (x = available self)); destruct (decide (x = connected self));
    set_solver.
Qed.

(** ** Several remote values *)

Lemma listing_elements key env l v :
  get_remote_all key RNone env l ->
  v ∈ l ↔ v ∈ presented key env ∧ rtruthy v = true.
Proof.
  intros [_ Hl]. rewrite Hl, remote_values_presented, list_elem_of_filter. tauto.
Qed.

(** A listing of the distinct true values that starts with a given one. *)
Lemma listing_with_head key env v :
  v ∈ presented key env -> rtruthy v = true ->
  ∃ l, get_remote_all key RNone env (v :: l).
Proof.
  intros Hv Ht.
  exists (remove_dups (filter (fun x => x ≠ v) (remote_values key RNone env))). split.
  - apply NoDup_cons. split; [|apply NoDup_remove_dups].
    rewrite elem_of_remove_dups, list_elem_of_filter. by intros [? _].
  - intros x. rewrite elem_of_cons, elem_of_remove_dups, list_elem_of_filter.
    split.
    + intros [->|[_ ?]]; [|done].
      rewrite remote_values_presented, list_elem_of_filter. done.
    + intros Hx. destruct (decide (x = v)); [by left|by right].
Qed.

(** X9: [get_remote_all] with its default of [None] returns the distinct
    true values presented by the related units and nothing else: no [None], no
    false boolean, no empty string, no value twice; it returns the empty list
    exactly when no unit presents a true value. *)
Theorem get_remote_all_true_values key env l :
  get_remote_all key RNone env l ->
  NoDup l ∧
  (∀ v, v ∈ l ↔ v ∈ presented key env ∧ rtruthy v = true) ∧
  (RNone ∉ l) ∧ (RBool false ∉ l) ∧ (RStr EmptyString ∉ l) ∧
  (l = [] ↔ ∀ v, v ∈ presented key env -> rtruthy v = false).
Proof.
  intros Hl. pose proof (fun v => listing_elements key env l v Hl) as Hin.
  split; [by destruct Hl|]. split; [intros v; by apply Hin|].
  split; [|split; [|split]].
  - intros [_ ?]%Hin; done.
  - intros [_ ?]%Hin; done.
  - intros [_ ?]%Hin; done.
  - split.
    + intros -> v Hv. destruct (rtruthy v) eqn:Ht; [|done].
      exfalso. apply (not_elem_of_nil v). by apply Hin.
    + intros Hall. destruct l as [|x l]; [done|].
      assert (x ∈ x :: l) as [Hx Ht]%Hin by left.
      by rewrite (Hall x Hx) in Ht.
Qed.

Lemma get_remote_all_true_values_witness :
  get_remote_all "clustered" RNone (single_unit (RStr "yes")) [RStr "yes"] ∧
  (RNone ∉ [RStr "yes"]).
Proof.
  assert (get_remote_all "clustered" RNone (single_unit (RStr "yes")) [RStr "yes"]) as Hl.
  { split; [apply NoDup_singleton|]. intros v. reflexivity. }
  split; [exact Hl|].
  exact (proj1 (proj2 (proj2 (get_remote_all_true_values _ _ _ Hl)))).
Defined.

(** X10: with several related units, [is_clustered] is determined as soon as
    the true values presented agree in their reading: when each of them reads
    as true (and there is one) the result is true, when none of them reads as
    true the result is false, whatever the order in which the set of values
    is listed. *)
Theorem is_clustered_agreement env m :
  (∀ v, v ∈ presented "clustered" env -> rtruthy v = true -> clustered_meaning v = m) ->
  (m = true -> ∃ v, v ∈ presented "clustered" env ∧ rtruthy v = true) ->
  is_clustered env m ∧ ∀ b, is_clustered env b -> b = m.
Proof.
  intros Hagree Hsome.
  assert (∀ l, get_remote_all "clustered" RNone env l -> is_clustered_from l = m) as Hread.
  { intros l Hl. destruct l as [|x l].
    - destruct m; [|done]. destruct (Hsome eq_refl) as (v & Hv & Ht).
      exfalso. eapply not_elem_of_nil. apply (listing_elements _ _ _ _ Hl). done.
    - assert (x ∈ x :: l) as [Hx Ht]%(listing_elements _ _ _ _ Hl) by left.
      rewrite <-(Hagree x Hx Ht). by apply (is_clustered_from_meaning x). }
  split.
  - destruct (listing_exists "clustered" env) as [l Hl]. exists l. split; [done|by apply Hread].
  - intros b (l & Hl & <-). by apply Hread.
Qed.

Lemma is_clustered_agreement_witness :
  is_clustered (two_units (RStr "True") (RStr "yes")) true.
Proof.
  apply (is_clustered_agreement (two_units (RStr "True") (RStr "yes")) true).
  - intros v Hv _. change (v ∈ [RStr "True"; RStr "yes"]) in Hv.
    apply elem_of_cons in Hv as [->|Hv]; [done|].
    by apply list_elem_of_singleton in Hv as ->.
  - intros _. exists (RStr "yes"). split; [|done].
    change (RStr "yes" ∈ [RStr "True"; RStr "yes"]). right. left.
Defined.

(** X11: when two related units present true values that read differently
    (one as true, one as false), the relation data do not determine
    [is_clustered]: the value it looks at is the first of a set turned into a
    list, and both results are possible. *)
Theorem is_clustered_disagreement env v w :
  v ∈ presented "clustered" env -> rtruthy v = true -> clustered_meaning v = true ->
  w ∈ presented "clustered" env -> rtruthy w = true -> clustered_meaning w = false ->
  is_clustered env true ∧ is_clustered env false.
Proof.
  intros Hv Htv Hmv Hw Htw Hmw. split.
  - destruct (listing_with_head "clustered" env v Hv Htv) as [l Hl].
    exists (v :: l). split; [done|].
    change (is_clustered_from [v] = true). by rewrite is_clustered_from_meaning.
  - destruct (listing_with_head "clustered" env w Hw Htw) as [l Hl].
    exists (w :: l). split; [done|].
    change (is_clustered_from [w] = false). by rewrite is_clustered_from_meaning.
Qed.

Lemma is_clustered_disagreement_witness :
  is_clustered (two_units (RStr "true") (RStr "no")) true ∧
  is_clustered (two_units (RStr "true") (RStr "no")) false.
Proof.
  apply (is_clustered_disagreement _ (RStr "true") (RStr "no")); try done.
  - change (RStr "true" ∈ [RStr "true"; RStr "no"]). left.
  - change (RStr "no" ∈ [RStr "true"; RStr "no"]). right. left.
Defined.

(** ** Declaring and removing resources *)

Lemma delete_resource_writes key st st' :
  delete_resource key st = Ok st' ->
  ∃ crm, st' = set_local {["resources" := PDict crm]} st.
Proof.
  unfold delete_resource.
  destruct (stored_registry _) as [crm|]; cbn [mbind result_bind]; [|done].
  destruct (add_delete_resource _ _) as [crm'|]; cbn [mbind result_bind]; [|done].
  intros [= <-]. by exists crm'.
Qed.

Lemma declaration_writes describe self m st st' :
  declaration m = true ->
  invoke describe self m st = Ok st' ->
  ∃ crm, st' = set_local {["resources" := PDict crm]} st.
Proof.
  destruct m; try discriminate; intros _; cbn [invoke].
  - apply delete_resource_writes.
  - unfold add_vip.
    destruct (stored_registry _) as [crm|]; cbn [mbind result_bind]; [|done].
    destruct (add _ _ _) as [crm1|]; cbn [mbind result_bind]; [|done].
    match goal with |- (?g ≫= _) = _ -> _ => destruct g as [crm2|] end;
      cbn [mbind result_bind]; [|done].
    intros [= <-]. by exists crm2.
  - unfold remove_vip. apply delete_resource_writes.
  - unfold add_init_service.
    destruct (stored_registry _) as [crm|]; cbn [mbind result_bind]; [|done].
    destruct (add _ _ _) as [crm1|]; cbn [mbind result_bind]; [|done].
    intros [= <-]. by exists crm1.
  - unfold remove_init_service. apply delete_resource_writes.
  - unfold add_systemd_service.
    destruct (stored_registry _) as [crm|]; cbn [mbind result_bind]; [|done].
    destruct (add _ _ _) as [crm1|]; cbn [mbind result_bind]; [|done].
    intros [= <-]. by exists crm1.
  - unfold remove_systemd_service. apply delete_resource_writes.
  - unfold add_dnsha.
    destruct (stored_registry _) as [crm|]; cbn [mbind result_bind]; [|done].
    destruct (add _ _ _) as [crm1|]; cbn [mbind result_bind]; [|done].
    match goal with |- (?g ≫= _) = _ -> _ => destruct g as [crm2|] end;
      cbn [mbind result_bind]; [|done].
    intros [= <-]. by exists crm2.
  - unfold remove_dnsha. destruct (service_name self); [|done].
    destruct (Requires.endpoint_type self); [|done]. apply delete_resource_writes.
Qed.

(** X12: the nine methods that declare or remove a resource
    ([delete_resource], [add_vip], [remove_vip], [add_init_service],
    [remove_init_service], [add_systemd_service], [remove_systemd_service],
    [add_dnsha], [remove_dnsha]) work on the local data only.  When one
    returns, its only write is one [set_local] of the one key 'resources'
    holding a mapping; the remote data, the payloads remembered by
    [data_changed], the flags and every other local key are as before.  So
    nothing reaches the subordinate until [bind_resources] or
    [manage_resources] is called. *)
Theorem declarations_stay_local describe self m st st' :
  declaration m = true ->
  invoke describe self m st = Ok st' ->
  remote_data st' = remote_data st ∧
  seen st' = seen st ∧
  states st' = states st ∧
  (∃ crm, new_calls st st' = [SetLocal {["resources" := PDict crm]}] ∧
          local_data st' !! "resources" = Some (PDict crm)) ∧
  (∀ k, k ≠ "resources" -> local_data st' !! k = local_data st !! k).
Proof.
  intros Hm Hrun.
  destruct (declaration_writes _ _ _ _ _ Hm Hrun) as [crm ->].
  split; [done|]. split; [done|]. split; [done|]. split.
  - exists crm. split; [by apply new_calls_app|apply lookup_set_local].
  - intros k Hk. unfold set_local; cbn [local_data].
    by rewrite lookup_union_r; [|rewrite lookup_singleton_ne].
Qed.

Lemma declarations_stay_local_witness :
  ∃ st', remove_init_service "my-app" "haproxy" initial = Ok st' ∧
         remote_data st' = remote_data initial ∧
         seen st' = seen initial.
Proof.
  exists (set_local {["resources" := PDict [("resources", PDict []);
              ("delete_resources", PList [PStr "res_my_app_haproxy"]);
              ("groups", PDict [])]]} initial).
  split; [reflexivity|].
  destruct (declarations_stay_local describe_kind (Self "ha" None None)
              (RemoveInitService "my-app" "haproxy") initial _ eq_refl eq_refl)
    as (Hr & Hs & _).
  by split.
Defined.

(** *** The store seen through its three sections *)

Lemma view_of st res dels grps :
  local_data st !! "resources"
  = Some (PDict [("resources", PDict res); ("delete_resources", PList dels);
                 ("groups", PDict grps)]) ->
  (∀ k, declared k st ↔ is_Some (dict_get k res)) ∧
  (∀ k, pending k st ↔ PStr k ∈ dels) ∧
  (∀ g, stored_group g st = dict_get g grps) ∧
  (∀ k, stored_resource k st = dict_get k res).
Proof.
  intros Hloc. split; [|split; [|split]].
  - intros k. split.
    + intros (crm & r & H1 & H2 & H3). rewrite Hloc in H1. injection H1 as <-.
      cbn in H2. by injection H2 as <-.
    + intros Hk. by eexists _, res.
  - intros k. split.
    + intros (crm & xs & H1 & H2 & H3). rewrite Hloc in H1. injection H1 as <-.
      cbn in H2. by injection H2 as <-.
    + intros Hk. by eexists _, dels.
  - intros g. unfold stored_group, get_local. by rewrite Hloc.
  - intros k. unfold stored_resource, get_local. by rewrite Hloc.
Qed.

(** A valid store gives every method three sections to start from: the
    stored ones, or the empty ones of a fresh registry. *)
Lemma store_view describe st :
  store_ok describe st ->
  ∃ res dels grps,
    registry describe [("resources", PDict res); ("delete_resources", PList dels);
                       ("groups", PDict grps)] ∧
    stored_registry (get_local "resources" st)
    = Ok [("resources", PDict res); ("delete_resources", PList dels);
          ("groups", PDict grps)] ∧
    (local_data st !! "resources" = None ∧ res = [] ∧ dels = [] ∧ grps = [] ∨
     local_data st !! "resources"
     = Some (PDict [("resources", PDict res); ("delete_resources", PList dels);
                    ("groups", PDict grps)])) ∧
    (∀ k, declared k st ↔ is_Some (dict_get k res)) ∧
    (∀ k, pending k st ↔ PStr k ∈ dels) ∧
    (∀ g, stored_group g st = dict_get g grps) ∧
    (∀ k, stored_resource k st = dict_get k res).
Proof.
  intros [Hnone|(crm & Hreg & Hsome)].
  - exists [], [], []. split; [apply registry_fresh|].
    split; [unfold get_local; by rewrite Hnone|]. split; [by left|].
    split; [|split; [|split]].
    + intros k. split; [|by intros [? ?]].
      intros (crm & r & H1 & _). by rewrite Hnone in H1.
    + intros k. split; [|by intros ?%elem_of_nil].
      intros (crm & r & H1 & _). by rewrite Hnone in H1.
    + intros g. unfold stored_group, get_local. by rewrite Hnone.
    + intros k. unfold stored_resource, get_local. by rewrite Hnone.
  - pose proof (registry_shape _ _ Hreg) as (res & dels & grps & ->).
    exists res, dels, grps. split; [done|].
    split; [unfold get_local; by rewrite Hsome|]. split; [by right|].
    by apply view_of.
Qed.

Lemma view_after st res dels grps :
  let st' := set_local {["resources" :=
                PDict [("resources", PDict res); ("delete_resources", PList dels);
                       ("groups", PDict grps)]]} st in
  (∀ k, declared k st' ↔ is_Some (dict_get k res)) ∧
  (∀ k, pending k st' ↔ PStr k ∈ dels) ∧
  (∀ g, stored_group g st' = dict_get g grps) ∧
  (∀ k, stored_resource k st' = dict_get k res).
Proof. intros st'. apply view_of, lookup_set_local. Qed.

Lemma store_ok_after describe crm st :
  registry describe crm -> store_ok describe (set_local {["resources" := PDict crm]} st).
Proof. intros Hreg. right. exists crm. split; [done|apply lookup_set_local]. Qed.

(** *** The methods on a valid store *)

Lemma delete_resource_store key st res dels grps :
  stored_registry (get_local "resources" st)
  = Ok [("resources", PDict res); ("delete_resources", PList dels);
        ("groups", PDict grps)] ->
  delete_resource key st
  = Ok (set_local {["resources" :=
          PDict [("resources", PDict res);
                 ("delete_resources",
                  PList (if existsb (is_str key) dels then dels else dels ++ [PStr key]));
                 ("groups", PDict grps)]]} st).
Proof.
  intros Hstart. unfold delete_resource. rewrite Hstart. cbn [mbind result_bind].
  unfold add_delete_resource. cbn [dict_get String.eqb Ascii.eqb Bool.eqb].
  cbn [mbind result_bind mret result_ret]. by destruct (existsb _ _).
Qed.

Lemma add_service_store describe r st res dels grps :
  stored_registry (get_local "resources" st)
  = Ok [("resources", PDict res); ("delete_resources", PList dels);
        ("groups", PDict grps)] ->
  (resources ← stored_registry (get_local "resources" st);
   resources ← add describe r resources;
   mret (set_local {["resources" := PDict resources]} st))
  = Ok (set_local {["resources" :=
          PDict [("resources", PDict (dict_set (resource_key r) (describe r) res));
                 ("delete_resources", PList dels); ("groups", PDict grps)]]} st).
Proof. intros ->. reflexivity. Qed.

Lemma add_vip_store describe name vip iface netmask st res dels grps :
  stored_registry (get_local "resources" st)
  = Ok [("resources", PDict res); ("delete_resources", PList dels);
        ("groups", PDict grps)] ->
  (get_local "resources" st = PNone ∨
   get_local "resources" st
   = PDict [("resources", PDict res); ("delete_resources", PList dels);
            ("groups", PDict grps)]) ->
  let r := VirtualIP name vip iface netmask in
  let res' := dict_set (resource_key r) (describe r) res in
  let members := sorted (filter (fun k => contains "vip" k) (dict_keys res')) in
  add_vip describe name vip iface netmask st
  = Ok (set_local {["resources" :=
          PDict [("resources", PDict res'); ("delete_resources", PList dels);
                 ("groups",
                  PDict (if truthy (get_local "resources" st)
                         then dict_set ("grp_" +:+ name +:+ "_vips")
                                (PList (map PStr members)) grps
                         else grps))]]} st).
Proof.
  intros Hstart Hcase r res' members. unfold add_vip. rewrite Hstart.
  cbn [mbind result_bind]. fold r.
  change (add describe r _)
    with (Ok [("resources", PDict res'); ("delete_resources", PList dels);
              ("groups", PDict grps)]).
  cbn [mbind result_bind].
  destruct Hcase as [->| ->]; [reflexivity|].
  change (truthy (PDict (_ :: _))) with true. cbv iota.
  change (shared_get "resources" _ _) with (PDict res').
  replace (truthy (PDict res')) with true by (symmetry; apply dict_set_truthy).
  cbn [iter_keys mbind result_bind]. fold members.
  unfold group, section_set. cbn [dict_get String.eqb Ascii.eqb Bool.eqb].
  cbn [mbind result_bind mret result_ret dict_set String.eqb Ascii.eqb Bool.eqb].
  unfold members at 1. by rewrite sorted_idemp.
Qed.

Lemma add_dnsha_store describe name ip fqdn endpoint_type st res dels grps :
  stored_registry (get_local "resources" st)
  = Ok [("resources", PDict res); ("delete_resources", PList dels);
        ("groups", PDict grps)] ->
  (get_local "resources" st = PNone ∨
   get_local "resources" st
   = PDict [("resources", PDict res); ("delete_resources", PList dels);
            ("groups", PDict grps)]) ->
  let r := DNSEntry name ip fqdn endpoint_type in
  let res' := dict_set (resource_key r) (describe r) res in
  let members := sorted (filter (fun k => contains "hostname" k) (dict_keys res')) in
  add_dnsha describe name ip fqdn endpoint_type st
  = Ok (set_local {["resources" :=
          PDict [("resources", PDict res'); ("delete_resources", PList dels);
                 ("groups",
                  PDict (if truthy (get_local "resources" st)
                         then dict_set ("grp_" +:+ name +:+ "_hostnames")
                                (PList (map PStr members)) grps
                         else grps))]]} st).
Proof.
  intros Hstart Hcase r res' members. unfold add_dnsha. rewrite Hstart.
  cbn [mbind result_bind]. fold r.
  change (add describe r _)
    with (Ok [("resources", PDict res'); ("delete_resources", PList dels);
              ("groups", PDict grps)]).
  cbn [mbind result_bind].
  destruct Hcase as [->| ->]; [reflexivity|].
  change (truthy (PDict (_ :: _))) with true. cbv iota.
  change (shared_get "resources" _ _) with (PDict res').
  replace (truthy (PDict res')) with true by (symmetry; apply dict_set_truthy).
  cbn [iter_keys mbind result_bind]. fold members.
  unfold group, section_set. cbn [dict_get String.eqb Ascii.eqb Bool.eqb].
  cbn [mbind result_bind mret result_ret dict_set String.eqb Ascii.eqb Bool.eqb].
  unfold members at 1. by rewrite sorted_idemp.
Qed.

(** What a declaring or removing method makes of the three sections. *)
Lemma declaration_store describe self m st res dels grps :
  declaration m = true ->
  has_attributes self m ->
  stored_registry (get_local "resources" st)
  = Ok [("resources", PDict res); ("delete_resources", PList dels);
        ("groups", PDict grps)] ->
  (get_local "resources" st = PNone ∨
   get_local "resources" st
   = PDict [("resources", PDict res); ("delete_resources", PList dels);
            ("groups", PDict grps)]) ->
  ∃ res' dels' grps',
    invoke describe self m st
    = Ok (set_local {["resources" :=
            PDict [("resources", PDict res'); ("delete_resources", PList dels');
                   ("groups", PDict grps')]]} st) ∧
    match descriptor m with
    | Some r =>
        res' = dict_set (resource_key r) (describe r) res ∧ dels' = dels ∧
        match m with
        | AddVip _ _ _ _ | AddDnsha _ _ _ _ =>
            grps' = grps ∨
            ∃ g members, grps' = dict_set g (PList (map PStr (sorted members))) grps
        | _ => grps' = grps
        end
    | None =>
        res' = res ∧ grps' = grps ∧
        ∃ key, dels' = if existsb (is_str key) dels then dels else dels ++ [PStr key]
    end.
Proof.
  intros Hm Hattr Hstart Hcase.
  destruct m; try discriminate Hm; cbn [invoke descriptor].
  - eexists _, _, _. split; [by apply delete_resource_store|]. eauto.
  - eexists _, _, _. split; [by apply add_vip_store|].
    split; [done|]. split; [done|].
    destruct (truthy (get_local "resources" st)); [right|by left].
    by eexists _, _.
  - eexists _, _, _. split; [by apply delete_resource_store|]. eauto.
  - eexists _, _, _. split; [by apply (add_service_store describe (InitService _ _ _))|]. done.
  - eexists _, _, _. split; [by apply delete_resource_store|]. eauto.
  - eexists _, _, _.
    split; [by apply (add_service_store describe (SystemdService _ _ _))|]. done.
  - eexists _, _, _. split; [by apply delete_resource_store|]. eauto.
  - eexists _, _, _. split; [by apply add_dnsha_store|].
    split; [done|]. split; [done|].
    destruct (truthy (get_local "resources" st)); [right|by left].
    by eexists _, _.
  - destruct Hattr as [[sn Hsn] [et Het]]. unfold remove_dnsha. rewrite Hsn, Het.
    eexists _, _, _. split; [by apply delete_resource_store|]. eauto.
Qed.

Lemma declaration_registry describe m res dels grps res' dels' grps' :
  registry describe [("resources", PDict res); ("delete_resources", PList dels);
                     ("groups", PDict grps)] ->
  match descriptor m with
  | Some r =>
      res' = dict_set (resource_key r) (describe r) res ∧ dels' = dels ∧
      match m with
      | AddVip _ _ _ _ | AddDnsha _ _ _ _ =>
          grps' = grps ∨
          ∃ g members, grps' = dict_set g (PList (map PStr (sorted members))) grps
      | _ => grps' = grps
      end
  | None =>
      res' = res ∧ grps' = grps ∧
      ∃ key, dels' = if existsb (is_str key) dels then dels else dels ++ [PStr key]
  end ->
  registry describe [("resources", PDict res'); ("delete_resources", PList dels');
                     ("groups", PDict grps')].
Proof.
  intros Hreg Hrel. destruct (descriptor m) as [r|].
  - destruct Hrel as (-> & -> & Hg).
    assert (registry describe
              [("resources", PDict (dict_set (resource_key r) (describe r) res));
               ("delete_resources", PList dels); ("groups", PDict grps)]) as Hreg1.
    { eapply (registry_add describe r); [exact Hreg|reflexivity]. }
    assert (grps' = grps ∨
            ∃ g members, grps' = dict_set g (PList (map PStr (sorted members))) grps)
      as [->|(g & members & ->)] by (destruct m; tauto); [done|].
    eapply (registry_group describe g members); [exact Hreg1|reflexivity].
  - destruct Hrel as (-> & -> & key & ->).
    eapply (registry_delete describe key); [exact Hreg|].
    unfold add_delete_resource. cbn [dict_get String.eqb Ascii.eqb Bool.eqb].
    by destruct (existsb _ _).
Qed.

Lemma existsb_is_str key xs : existsb (is_str key) xs = true ↔ PStr key ∈ xs.
Proof.
  rewrite existsb_exists. split.
  - intros (x & Hin & Hx). destruct x; try done. cbn in Hx.
    apply String.eqb_eq in Hx as ->. by apply list_elem_of_In.
  - intros Hin. exists (PStr key). split; [by apply list_elem_of_In|].
    cbn. apply String.eqb_refl.
Qed.

Lemma store_ok_frame describe st st' :
  local_data st' !! "resources" = local_data st !! "resources" ->
  store_ok describe st -> store_ok describe st'.
Proof.
  intros Heq [Hnone|(crm & Hreg & Hsome)]; [left|right].
  - by rewrite Heq.
  - exists crm. by rewrite Heq.
Qed.

(** The three methods that send settings leave the entry 'resources' of the
    local data as it is, and raise nothing on a valid store. *)
Lemma settings_store describe self m st :
  declaration m = false ->
  store_ok describe st ->
  ∃ st', invoke describe self m st = Ok st' ∧
         local_data st' !! "resources" = local_data st !! "resources".
Proof.
  intros Hm Hst. destruct m; try discriminate Hm; cbn [invoke].
  - eexists. split; [done|]. by apply bind_on_frame.
  - eexists. split; [done|]. apply manage_resources_frame, resources_not_wire_key.
  - unfold bind_resources.
    set (port := match mcastport with Some _ => mcastport | None => Some 4440 end).
    assert (local_data (bind_on iface port st) !! "resources"
            = local_data st !! "resources") as Hbind by (by apply bind_on_frame).
    destruct Hst as [Hnone|(crm & Hreg & Hsome)]; unfold get_local.
    + rewrite Hnone. cbn [default from_option id truthy mret result_ret].
      eexists. split; [reflexivity|by rewrite Hbind].
    + rewrite Hsome. cbn [default from_option id].
      pose proof (registry_shape _ _ Hreg) as (res & dels & grps & ->).
      cbn [truthy crm_of mbind result_bind mret result_ret].
      eexists. split; [done|]. rewrite <-Hsome, <-Hbind.
      apply manage_resources_frame, resources_not_wire_key.
Qed.

(** One call on a valid store. *)
Lemma invoke_store describe self m st :
  store_ok describe st ->
  has_attributes self m ->
  ∃ st', invoke describe self m st = Ok st' ∧ store_ok describe st' ∧
         (∀ k, declared k st -> declared k st') ∧
         (∀ k, pending k st -> pending k st') ∧
         (∀ g, is_Some (stored_group g st) -> is_Some (stored_group g st')).
Proof.
  intros Hst Hattr. destruct (declaration m) eqn:Hm.
  - destruct (store_view _ _ Hst)
      as (res & dels & grps & Hreg & Hstart & Hcase & Hdecl & Hpend & Hgrp & _).
    assert (get_local "resources" st = PNone ∨
            get_local "resources" st
            = PDict [("resources", PDict res); ("delete_resources", PList dels);
                     ("groups", PDict grps)]) as Hcase'.
    { unfold get_local. destruct Hcase as [(-> & _)| ->]; [by left|by right]. }
    destruct (declaration_store describe self m st res dels grps Hm Hattr Hstart Hcase')
      as (res' & dels' & grps' & Hrun & Hrel).
    pose proof (declaration_registry _ _ _ _ _ _ _ _ Hreg Hrel) as Hreg'.
    destruct (view_after st res' dels' grps') as (Hdecl' & Hpend' & Hgrp' & _).
    eexists. split; [exact Hrun|]. split; [by apply store_ok_after|].
    split; [|split].
    + intros k Hk%Hdecl. apply Hdecl'. destruct (descriptor m) as [r|].
      * destruct Hrel as (-> & _). rewrite dict_get_set.
        by destruct (String.eqb _ _).
      * by destruct Hrel as (-> & _).
    + intros k Hk%Hpend. apply Hpend'. destruct (descriptor m) as [r|].
      * by destruct Hrel as (_ & -> & _).
      * destruct Hrel as (_ & _ & key & ->).
        destruct (existsb _ _); [done|]. apply elem_of_app. by left.
    + intros g. rewrite Hgrp, Hgrp'. intros Hg. destruct (descriptor m) as [r|].
      * destruct Hrel as (_ & _ & Hrel).
        assert (grps' = grps ∨
                ∃ g members, grps' = dict_set g (PList (map PStr (sorted members))) grps)
          as [->|(g' & members & ->)] by (destruct m; tauto); [done|].
        rewrite dict_get_set. by destruct (String.eqb _ _).
      * by destruct Hrel as (_ & -> & _).
  - destruct (settings_store describe self m st Hm Hst) as (st' & Hrun & Hres).
    exists st'. split; [done|]. split; [by eapply store_ok_frame|].
    split; [|split].
    + intros k (crm & r & H1 & H2). exists crm, r. by rewrite Hres.
    + intros k (crm & r & H1 & H2). exists crm, r. by rewrite Hres.
    + intros g. unfold stored_group, get_local. by rewrite Hres.
Qed.

Lemma invoke_attributes describe self m st st' :
  invoke describe self m st = Ok st' -> has_attributes self m.
Proof.
  destruct m; try done. cbn [invoke has_attributes]. unfold remove_dnsha.
  destruct (service_name self); [|done].
  destruct (Requires.endpoint_type self); [|done]. by split.
Qed.

Lemma invoke_all_store describe self ms st :
  store_ok describe st ->
  Forall (has_attributes self) ms ->
  ∃ st', invoke_all describe self ms st = Ok st' ∧ store_ok describe st'.
Proof.
  intros Hst Hattr. revert st Hst.
  induction Hattr as [|m ms Hm _ IH]; intros st Hst; [by exists st|].
  destruct (invoke_store describe self m st Hst Hm) as (st1 & Hrun & Hst1 & _).
  destruct (IH st1 Hst1) as (st' & Hrest & Hst').
  exists st'. cbn [invoke_all]. rewrite Hrun. by split.
Qed.

(** X13: on a valid store (nothing stored under 'resources', or a registry),
    a sequence of calls of the methods of the class runs to its end exactly
    when every [remove_dnsha] in it finds the two attributes it reads: no
    other call can raise.  The store is valid again after the run. *)
Theorem valid_store_runs describe self ms st :
  store_ok describe st ->
  ((∃ st', invoke_all describe self ms st = Ok st') ↔ Forall (has_attributes self) ms) ∧
  (∀ st', invoke_all describe self ms st = Ok st' -> store_ok describe st').
Proof.
  revert st. induction ms as [|m ms IH]; intros st Hst.
  - split; [split; [constructor|by exists st]|]. by intros st' [= <-].
  - cbn [invoke_all]. destruct (invoke describe self m st) as [st1|e] eqn:Hrun.
    + pose proof (invoke_attributes _ _ _ _ _ Hrun) as Hattr.
      destruct (invoke_store describe self m st Hst Hattr) as (st1' & Hrun' & Hst1 & _).
      rewrite Hrun in Hrun'. injection Hrun' as <-.
      destruct (IH st1 Hst1) as [Hiff Hok]. cbn [mbind result_bind]. split; [|done].
      rewrite Hiff. split; [by constructor|by inversion 1].
    + cbn [mbind result_bind]. split; [|done].
      split; [by intros [? ?]|]. inversion 1 as [|? ? Hattr]; subst.
      destruct (invoke_store describe self m st Hst Hattr) as (st1 & Hrun' & _).
      by rewrite Hrun in Hrun'.
Qed.

Lemma valid_store_runs_witness :
  let self := Self "ha" None None in
  let ms := [AddVip "neutron" "10.0.0.5" (Some "eth0") None;
             RemoveVip "neutron" "10.0.0.5" (Some "eth0");
             BindResources (Some "eth0") None] in
  store_ok describe_kind initial ∧
  ∃ st', invoke_all describe_kind self ms initial = Ok st'.
Proof.
  intros self ms. split; [by left|].
  apply (valid_store_runs describe_kind self ms initial (or_introl eq_refl)).
  repeat constructor.
Defined.

(** X14: no method of the class withdraws anything from a valid store.
    Along any sequence of calls that runs to its end, a resource that was
    declared stays declared, a key that was pending deletion stays pending,
    and a group that existed still exists: the removal methods only add to
    the pending deletions. *)
Theorem nothing_is_withdrawn describe self ms st st' :
  store_ok describe st ->
  invoke_all describe self ms st = Ok st' ->
  (∀ k, declared k st -> declared k st') ∧
  (∀ k, pending k st -> pending k st') ∧
  (∀ g, is_Some (stored_group g st) -> is_Some (stored_group g st')).
Proof.
  revert st. induction ms as [|m ms IH]; intros st Hst; cbn [invoke_all].
  - by intros [= <-].
  - destruct (invoke describe self m st) as [st1|e] eqn:Hrun; [|done].
    cbn [mbind result_bind]. intros Hrest.
    pose proof (invoke_attributes _ _ _ _ _ Hrun) as Hattr.
    destruct (invoke_store describe self m st Hst Hattr)
      as (st1' & Hrun' & Hst1 & Hd & Hp & Hg).
    rewrite Hrun in Hrun'. injection Hrun' as <-.
    destruct (IH st1 Hst1 Hrest) as (Hd' & Hp' & Hg'). naive_solver.
Qed.

Lemma nothing_is_withdrawn_witness :
  let self := Self "ha" None None in
  let ms := [RemoveVip "neutron" "10.0.0.5" (Some "eth0"); BindResources None None] in
  ∃ st1 st2,
    add_vip describe_kind "neutron" "10.0.0.5" (Some "eth0") None initial = Ok st1 ∧
    store_ok describe_kind st1 ∧
    invoke_all describe_kind self ms st1 = Ok st2 ∧
    declared "res_neutron_eth0_vip" st2.
Proof.
  intros self ms.
  set (crm1 := [("resources", PDict [("res_neutron_eth0_vip", PStr "VirtualIP")]);
                ("delete_resources", PList []); ("groups", PDict [])]).
  set (st1 := set_local {["resources" := PDict crm1]} initial).
  assert (store_ok describe_kind st1) as Hst1.
  { apply store_ok_after.
    eapply (registry_add _ (VirtualIP "neutron" "10.0.0.5" (Some "eth0") None));
      [apply registry_fresh|reflexivity]. }
  assert (declared "res_neutron_eth0_vip" st1) as Hd1.
  { eexists _, _. split; [reflexivity|]. split; [reflexivity|]. by eexists. }
  destruct (invoke_all_store describe_kind self ms st1 Hst1) as (st2 & Hrun & _);
    [repeat constructor|].
  exists st1, st2. split; [reflexivity|]. split; [exact Hst1|]. split; [exact Hrun|].
  exact (proj1 (nothing_is_withdrawn describe_kind self ms st1 st2 Hst1 Hrun) _ Hd1).
Defined.

(** *** Groups *)

Lemma elem_of_sorted k l : k ∈ sorted l ↔ k ∈ l.
Proof. unfold sorted. by rewrite (sort_by_perm (fun s => s) l). Qed.

Lemma sorted_sorted l : StronglySorted (fun a b => String.leb a b = true) (sorted l).
Proof. apply (sort_by_sorted (fun s : string => s)). Qed.

(** The members of a group: sorted, and the keys of the resources that
    satisfy the test. *)
Lemma members_spec (test : string -> bool) (res : list (string * pyval)) :
  let members := sorted (filter (fun k => test k) (dict_keys res)) in
  StronglySorted (fun a b => String.leb a b = true) members ∧
  ∀ k, k ∈ members ↔ is_Some (dict_get k res) ∧ test k = true.
Proof.
  intros members. split; [apply sorted_sorted|].
  intros k. unfold members. rewrite elem_of_sorted, list_elem_of_filter.
  unfold dict_keys. rewrite dict_get_Some_keys.
  destruct (test k); naive_solver.
Qed.

(** X15: on a valid store [add_dnsha] succeeds, keeps the store valid and
    stores the description of the DNS entry under its key; no group other than
    grp_<name>_hostnames changes.  When nothing was stored before, that group
    is not created either.  When a registry was stored, the group is set to
    the sorted keys of the resources declared by then (the new one included,
    whatever service they belong to) in which 'hostname' occurs. *)
Theorem add_dnsha_groups describe name ip fqdn endpoint_type st :
  store_ok describe st ->
  let r := DNSEntry name ip fqdn endpoint_type in
  let g := "grp_" +:+ name +:+ "_hostnames" in
  ∃ st',
    add_dnsha describe name ip fqdn endpoint_type st = Ok st' ∧
    store_ok describe st' ∧
    stored_resource (resource_key r) st' = Some (describe r) ∧
    (∀ g', g' ≠ g -> stored_group g' st' = stored_group g' st) ∧
    match local_data st !! "resources" with
    | None => stored_group g st' = None
    | Some _ =>
        ∃ members,
          stored_group g st' = Some (PList (map PStr members)) ∧
          StronglySorted (fun a b => String.leb a b = true) members ∧
          ∀ k, k ∈ members ↔ declared k st' ∧ contains "hostname" k = true
    end.
Proof.
  intros Hst r g.
  destruct (store_view _ _ Hst)
    as (res & dels & grps & Hreg & Hstart & Hcase & _ & _ & Hgrp & _).
  assert (get_local "resources" st = PNone ∨
          get_local "resources" st
          = PDict [("resources", PDict res); ("delete_resources", PList dels);
                   ("groups", PDict grps)]) as Hcase'.
  { unfold get_local. destruct Hcase as [(-> & _)| ->]; [by left|by right]. }
  pose proof (add_dnsha_store describe name ip fqdn endpoint_type st res dels grps
                Hstart Hcase') as Hrun.
  cbv zeta in Hrun. fold r in Hrun.
  set (res' := dict_set (resource_key r) (describe r) res) in Hrun.
  set (members := sorted (filter (fun k => contains "hostname" k) (dict_keys res'))) in Hrun.
  set (grps' := if truthy (get_local "resources" st)
                then dict_set g (PList (map PStr members)) grps else grps) in Hrun.
  destruct (view_after st res' dels grps') as (Hdecl' & _ & Hgrp' & Hres').
  cbv zeta in Hdecl', Hgrp', Hres'.
  set (st' := set_local _ st) in Hrun, Hdecl', Hgrp', Hres'.
  exists st'. split; [exact Hrun|]. split; [|split; [|split]].
  - apply store_ok_after.
    apply (declaration_registry describe (AddDnsha name ip fqdn endpoint_type)
             res dels grps); [done|].
    cbn [descriptor]. split; [done|]. split; [done|]. unfold grps'.
    destruct (truthy _); [right|by left]. exists g, members.
    unfold members. by rewrite sorted_idemp.
  - rewrite Hres'. apply dict_get_set_eq.
  - intros g' Hg'. rewrite Hgrp', Hgrp. unfold grps'.
    destruct (truthy _); [|done]. by apply dict_get_set_ne.
  - rewrite Hgrp'. unfold grps', get_local.
    destruct Hcase as [(-> & _ & _ & ->)| ->]; [done|].
    cbn [default from_option id truthy]. exists members.
    split; [apply dict_get_set_eq|].
    destruct (members_spec (contains "hostname") res') as [Hsorted Hmem].
    split; [exact Hsorted|]. intros k. by rewrite Hdecl'.
Qed.

Lemma add_dnsha_groups_witness :
  store_ok describe_kind initial ∧
  ∃ st', add_dnsha describe_kind "keystone" "10.0.0.9" "ks.example.com" "public" initial
         = Ok st' ∧
         stored_group "grp_keystone_hostnames" st' = None.
Proof.
  split; [by left|].
  destruct (add_dnsha_groups describe_kind "keystone" "10.0.0.9" "ks.example.com" "public"
              initial (or_introl eq_refl)) as (st' & Hrun & _ & _ & _ & Hgroup).
  exists st'. split; [exact Hrun|exact Hgroup].
Defined.

(** X16: the group of virtual IPs is made by a substring test on the keys of
    the whole registry.  When [add_vip] runs on a stored registry, every
    resource already declared under a key in which 'vip' occurs is made a
    member of grp_<name>_vips, whatever service or kind of resource it belongs
    to; the members are exactly the keys declared by then in which 'vip'
    occurs. *)
Theorem vip_group_collects describe name vip iface netmask st k :
  store_ok describe st ->
  declared k st ->
  contains "vip" k = true ->
  ∃ st' members,
    add_vip describe name vip iface netmask st = Ok st' ∧
    stored_group ("grp_" +:+ name +:+ "_vips") st' = Some (PList (map PStr members)) ∧
    k ∈ members ∧
    ∀ k', k' ∈ members ↔ declared k' st' ∧ contains "vip" k' = true.
Proof.
  intros Hst Hk Hvip.
  destruct (store_view _ _ Hst)
    as (res & dels & grps & Hreg & Hstart & Hcase & Hdecl & _).
  destruct Hcase as [(Hnone & _)|Hsome].
  { destruct Hk as (crm & r & H1 & _). by rewrite Hnone in H1. }
  assert (get_local "resources" st
          = PDict [("resources", PDict res); ("delete_resources", PList dels);
                   ("groups", PDict grps)]) as Hget.
  { unfold get_local. by rewrite Hsome. }
  pose proof (add_vip_store describe name vip iface netmask st res dels grps
                Hstart (or_intror Hget)) as Hrun.
  cbv zeta in Hrun. rewrite Hget in Hrun. cbn [truthy] in Hrun.
  set (r := VirtualIP name vip iface netmask) in Hrun.
  set (res' := dict_set (resource_key r) (describe r) res) in Hrun.
  set (members := sorted (filter (fun k => contains "vip" k) (dict_keys res'))) in Hrun.
  set (grps' := dict_set ("grp_" +:+ name +:+ "_vips") (PList (map PStr members)) grps)
    in Hrun.
  destruct (view_after st res' dels grps') as (Hdecl' & _ & Hgrp' & _).
  cbv zeta in Hdecl', Hgrp'.
  set (st' := set_local _ st) in Hrun, Hdecl', Hgrp'.
  destruct (members_spec (contains "vip") res') as [_ Hmem]. fold members in Hmem.
  exists st', members. split; [exact Hrun|].
  split; [rewrite Hgrp'; apply dict_get_set_eq|]. split.
  - apply Hmem. split; [|done]. unfold res'. rewrite dict_get_set.
    destruct (String.eqb _ _); [done|]. by apply Hdecl.
  - intros k'. by rewrite Hdecl'.
Qed.

Lemma vip_group_collects_witness :
  ∃ st st' members,
    add_init_service describe_kind "vipmanager" "haproxy" true initial = Ok st ∧
    add_vip describe_kind "neutron" "10.0.0.5" (Some "eth0") None st = Ok st' ∧
    stored_group "grp_neutron_vips" st' = Some (PList (map PStr members)) ∧
    "res_vipmanager_haproxy" ∈ members.
Proof.
  set (crm := [("resources", PDict [("res_vipmanager_haproxy", PStr "InitService")]);
               ("delete_resources", PList []); ("groups", PDict [])]).
  set (st := set_local {["resources" := PDict crm]} initial).
  assert (store_ok describe_kind st) as Hst.
  { apply store_ok_after.
    eapply (registry_add _ (InitService "vipmanager" "haproxy" true));
      [apply registry_fresh|reflexivity]. }
  assert (declared "res_vipmanager_haproxy" st) as Hd.
  { eexists _, _. split; [reflexivity|]. split; [reflexivity|]. by eexists. }
  destruct (vip_group_collects describe_kind "neutron" "10.0.0.5" (Some "eth0") None st
              "res_vipmanager_haproxy" Hst Hd eq_refl)
    as (st' & members & Hrun & Hgroup & Hin & _).
  exists st, st', members. split; [reflexivity|]. by split.
Defined.

(** X17: on a valid store each of the four [add_] methods succeeds and
    stores the description of the resource it builds from its arguments under
    the key of that resource, replacing what was stored under that key; every
    other resource and the pending deletions are as before, and
    [add_init_service] and [add_systemd_service] leave every group as it
    was. *)
Theorem adding_stores_descriptor describe self m r st :
  store_ok describe st ->
  descriptor m = Some r ->
  ∃ st',
    invoke describe self m st = Ok st' ∧
    stored_resource (resource_key r) st' = Some (describe r) ∧
    (∀ k, k ≠ resource_key r -> stored_resource k st' = stored_resource k st) ∧
    (∀ k, pending k st' ↔ pending k st) ∧
    match m with
    | AddInitService _ _ _ | AddSystemdService _ _ _ =>
        ∀ g, stored_group g st' = stored_group g st
    | _ => True
    end.
Proof.
  intros Hst Hr.
  destruct (store_view _ _ Hst)
    as (res & dels & grps & Hreg & Hstart & Hcase & _ & Hpend & Hgrp & Hres).
  assert (get_local "resources" st = PNone ∨
          get_local "resources" st
          = PDict [("resources", PDict res); ("delete_resources", PList dels);
                   ("groups", PDict grps)]) as Hcase'.
  { unfold get_local. destruct Hcase as [(-> & _)| ->]; [by left|by right]. }
  assert (declaration m = true) as Hm by (by destruct m).
  assert (has_attributes self m) as Hattr by (by destruct m).
  destruct (declaration_store describe self m st res dels grps Hm Hattr Hstart Hcase')
    as (res' & dels' & grps' & Hrun & Hrel).
  rewrite Hr in Hrel. destruct Hrel as (-> & -> & Hgrps).
  destruct (view_after st (dict_set (resource_key r) (describe r) res) dels grps')
    as (_ & Hpend' & Hgrp' & Hres').
  eexists. split; [exact Hrun|]. split; [|split; [|split]].
  - rewrite Hres'. apply dict_get_set_eq.
  - intros k Hk. rewrite Hres', Hres. by apply dict_get_set_ne.
  - intros k. by rewrite Hpend', Hpend.
  - destruct m; try done; intros g; rewrite Hgrp', Hgrp; by rewrite Hgrps.
Qed.

Lemma adding_stores_descriptor_witness :
  ∃ st',
    add_systemd_service describe_kind "my-app" "apache2" true initial = Ok st' ∧
    stored_resource "res_my_app_apache2" st' = Some (PStr "SystemdService").
Proof.
  destruct (adding_stores_descriptor describe_kind (Self "ha" None None)
              (AddSystemdService "my-app" "apache2" true) _ initial
              (or_introl eq_refl) eq_refl) as (st' & Hrun & Hres & _).
  exists st'. split; [exact Hrun|exact Hres].
Defined.

Lemma removal_is_delete describe self m :
  declaration m = true ->
  descriptor m = None ->
  has_attributes self m ->
  ∃ key, ∀ st, invoke describe self m st = delete_resource key st.
Proof.
  intros Hm Hr Hattr. destruct m; try discriminate; cbn [invoke].
  - by eexists.
  - unfold remove_vip. by eexists.
  - unfold remove_init_service. by eexists.
  - unfold remove_systemd_service. by eexists.
  - destruct Hattr as [[sn Hsn] [et Het]]. unfold remove_dnsha. rewrite Hsn, Het.
    by eexists.
Qed.

(** X18: a removal ([delete_resource], [remove_vip], [remove_init_service],
    [remove_systemd_service], [remove_dnsha]) that returns on a valid store
    has removed nothing: every resource and every group is stored as before,
    and one key has been put among the pending deletions, unless it was there
    already.  The same call made again succeeds and leaves the local data as
    they are. *)
Theorem removing_only_marks describe self m st st' :
  store_ok describe st ->
  declaration m = true ->
  descriptor m = None ->
  invoke describe self m st = Ok st' ->
  (∀ k, stored_resource k st' = stored_resource k st) ∧
  (∀ g, stored_group g st' = stored_group g st) ∧
  (∃ key, pending key st' ∧ ∀ k, pending k st' ↔ pending k st ∨ k = key) ∧
  ∃ st'', invoke describe self m st' = Ok st'' ∧ local_data st'' = local_data st'.
Proof.
  intros Hst Hm Hr Hrun.
  pose proof (invoke_attributes _ _ _ _ _ Hrun) as Hattr.
  destruct (removal_is_delete describe self m Hm Hr Hattr) as [key Hkey].
  rewrite Hkey in Hrun. rewrite Hkey. clear Hkey.
  destruct (store_view _ _ Hst)
    as (res & dels & grps & Hreg & Hstart & _ & _ & Hpend & Hgrp & Hres).
  rewrite (delete_resource_store key st res dels grps Hstart) in Hrun.
  set (dels' := if existsb (is_str key) dels then dels else dels ++ [PStr key]) in Hrun.
  destruct (view_after st res dels' grps) as (_ & Hpend' & Hgrp' & Hres').
  cbv zeta in Hpend', Hgrp', Hres'. injection Hrun as <-.
  assert (PStr key ∈ dels') as Hin.
  { unfold dels'. destruct (existsb _ _) eqn:Hex; [by apply existsb_is_str|].
    apply elem_of_app. right. by apply list_elem_of_singleton. }
  split; [intros k; by rewrite Hres', Hres|].
  split; [intros g; by rewrite Hgrp', Hgrp|]. split.
  - exists key. split; [by apply Hpend'|].
    intros k. rewrite Hpend', Hpend. unfold dels'.
    destruct (existsb _ _) eqn:Hex.
    + apply existsb_is_str in Hex. split; [by left|]. by intros [?| ->].
    + rewrite elem_of_app, list_elem_of_singleton. split.
      * intros [?|[= ->]]; [by left|by right].
      * intros [?| ->]; [by left|by right].
  - eexists. split.
    + apply (delete_resource_store key _ res dels' grps).
      by rewrite get_local_set_local.
    + apply (proj2 (existsb_is_str key dels')) in Hin. rewrite Hin.
      unfold set_local; cbn [local_data].
      by rewrite (assoc_L (∪)), (idemp_L (∪)).
Qed.

Lemma removing_only_marks_witness :
  ∃ st1 st2,
    add_vip describe_kind "neutron" "10.0.0.5" (Some "eth0") None initial = Ok st1 ∧
    remove_vip "neutron" "10.0.0.5" (Some "eth0") st1 = Ok st2 ∧
    stored_resource "res_neutron_eth0_vip" st2 = Some (PStr "VirtualIP") ∧
    pending "res_neutron_eth0_vip" st2.
Proof.
  set (crm1 := [("resources", PDict [("res_neutron_eth0_vip", PStr "VirtualIP")]);
                ("delete_resources", PList []); ("groups", PDict [])]).
  set (crm2 := [("resources", PDict [("res_neutron_eth0_vip", PStr "VirtualIP")]);
                ("delete_resources", PList [PStr "res_neutron_eth0_vip"]);
                ("groups", PDict [])]).
  set (st1 := set_local {["resources" := PDict crm1]} initial).
  set (st2 := set_local {["resources" := PDict crm2]} st1).
  assert (store_ok describe_kind st1) as Hst1.
  { apply store_ok_after.
    eapply (registry_add _ (VirtualIP "neutron" "10.0.0.5" (Some "eth0") None));
      [apply registry_fresh|reflexivity]. }
  assert (remove_vip "neutron" "10.0.0.5" (Some "eth0") st1 = Ok st2) as Hrun
    by reflexivity.
  destruct (removing_only_marks describe_kind (Self "ha" None None)
              (RemoveVip "neutron" "10.0.0.5" (Some "eth0")) st1 st2 Hst1
              eq_refl eq_refl Hrun) as (Hres & _ & _ & _).
  exists st1, st2. split; [reflexivity|]. split; [exact Hrun|].
  split; [by rewrite Hres|].
  eexists _, _. split; [reflexivity|]. split; [reflexivity|]. left.
Defined.

(** ** What [data_changed] has seen and what the relation data hold *)

Lemma corosync_not_wire_key k k0 :
  k = "corosync_bindiface" ∨ k = "corosync_mcastport" -> k ≠ "json_" +:+ k0.
Proof. by intros [-> | ->]. Qed.

Lemma bind_on_payload_keys iface mcastport k :
  is_Some (bind_on_payload iface mcastport !! k) ->
  k = "corosync_bindiface" ∨ k = "corosync_mcastport".
Proof.
  intros Hk. destruct (decide (k = "corosync_bindiface")) as [|H1]; [by left|].
  destruct (decide (k = "corosync_mcastport")) as [|H2]; [by right|].
  rewrite bind_on_payload_other in Hk by done. by destruct Hk.
Qed.

Lemma wire_keys crm k : is_Some (wire crm ∅ !! k) -> ∃ k0, k = "json_" +:+ k0.
Proof.
  intros Hk. destruct (json_prefix_dec k) as [|Hno]; [done|].
  rewrite wire_lookup_other, lookup_empty in Hk by done. by destruct Hk.
Qed.

Lemma sync_inv_send data_id rd st :
  (data_id = "hacluster-bind_on" ∧
   (∀ k, is_Some (rd !! k) -> k = "corosync_bindiface" ∨ k = "corosync_mcastport")) ∨
  (data_id = "hacluster-manage_resources" ∧
   (∀ k, is_Some (rd !! k) -> ∃ k0, k = "json_" +:+ k0)) ->
  sync_inv st -> sync_inv (send data_id rd st).
Proof.
  intros Hclass Hinv id data. rewrite send_seen, send_remote, send_local.
  destruct (decide (id = data_id)) as [->|Hne].
  - rewrite lookup_insert_eq. intros [= <-]. split; [done|].
    case_bool_decide as Hseen.
    + split; [apply map_union_subseteq_l|apply map_union_subseteq_l].
    + by destruct (Hinv _ _ Hseen) as (_ & ? & ?).
  - rewrite lookup_insert_ne by done. intros Hseen.
    destruct (Hinv _ _ Hseen) as (Hclass' & Hrem & Hloc). split; [done|].
    case_bool_decide as Hchanged; [|done].
    assert (∀ k, is_Some (data !! k) -> rd !! k = None) as Hdisj.
    { intros k Hk. destruct (rd !! k) as [v|] eqn:Hrd; [exfalso|done].
      assert (is_Some (rd !! k)) as Hrk by (by rewrite Hrd).
      destruct Hclass as [[-> Hc]|[-> Hc]], Hclass' as [[-> Hc']|[-> Hc']]; try done.
      - destruct (Hc' k Hk) as [k0 Hk0]. by apply (corosync_not_wire_key k k0 (Hc k Hrk)).
      - destruct (Hc k Hrk) as [k0 Hk0]. by apply (corosync_not_wire_key k k0 (Hc' k Hk)). }
    split; apply map_subseteq_spec; intros k v Hkv.
    + rewrite lookup_union_r by (apply Hdisj; by rewrite Hkv).
      by eapply (proj1 (map_subseteq_spec _ _) Hrem).
    + rewrite lookup_union_r.
      * by eapply (proj1 (map_subseteq_spec _ _) Hloc).
      * rewrite lookup_fmap, Hdisj; [done|].
        rewrite lookup_fmap in Hkv. destruct (data !! k); [done|discriminate].
Qed.

Lemma sync_inv_set_local v st :
  sync_inv st -> sync_inv (set_local {["resources" := v]} st).
Proof.
  intros Hinv id data Hseen. destruct (Hinv _ _ Hseen) as (Hclass & Hrem & Hloc).
  split; [done|]. split; [done|].
  apply map_subseteq_spec; intros k x Hkx. unfold set_local; cbn [local_data].
  rewrite lookup_union_r.
  - by eapply (proj1 (map_subseteq_spec _ _) Hloc).
  - apply lookup_singleton_ne. intros <-.
    assert (is_Some (data !! "resources")) as Hk.
    { rewrite lookup_fmap in Hkx. destruct (data !! "resources"); [done|discriminate]. }
    destruct Hclass as [[_ Hc]|[_ Hc]].
    + by destruct (Hc _ Hk).
    + destruct (Hc _ Hk) as [k0 Hk0]. by apply resources_not_wire_key in Hk0.
Qed.

Lemma sync_inv_bind_on iface mcastport st :
  sync_inv st -> sync_inv (bind_on iface mcastport st).
Proof.
  intros Hinv. rewrite bind_on_send. case_bool_decide; [|done].
  apply sync_inv_send; [|done]. left. split; [done|]. apply bind_on_payload_keys.
Qed.

Lemma sync_inv_manage_resources crm st :
  sync_inv st -> sync_inv (manage_resources crm st).
Proof.
  intros Hinv. rewrite manage_resources_send.
  apply sync_inv_send; [|done]. right. split; [done|]. apply wire_keys.
Qed.

Lemma sync_inv_invoke describe self m st st' :
  invoke describe self m st = Ok st' -> sync_inv st -> sync_inv st'.
Proof.
  intros Hrun Hinv. destruct (declaration m) eqn:Hm.
  - destruct (declaration_writes _ _ _ _ _ Hm Hrun) as [crm ->].
    by apply sync_inv_set_local.
  - destruct m; try discriminate Hm; cbn [invoke] in Hrun.
    + injection Hrun as <-. by apply sync_inv_bind_on.
    + injection Hrun as <-. by apply sync_inv_manage_resources.
    + apply bind_resources_inv in Hrun. cbv zeta in Hrun.
      destruct Hrun as [[_ ->]|(items & _ & ->)].
      * by apply sync_inv_bind_on.
      * by apply sync_inv_manage_resources, sync_inv_bind_on.
Qed.

Lemma sync_inv_invoke_all describe self ms st0 st :
  sync_inv st0 -> invoke_all describe self ms st0 = Ok st -> sync_inv st.
Proof.
  revert st0. induction ms as [|m ms IH]; intros st0 Hinv; cbn [invoke_all].
  - by intros [= <-].
  - destruct (invoke describe self m st0) as [st1|e] eqn:Hrun; [|done].
    cbn [mbind result_bind]. apply IH. by eapply sync_inv_invoke.
Qed.

Lemma sync_inv_start st : seen st = ∅ -> sync_inv st.
Proof. intros Hseen id data. by rewrite Hseen, lookup_empty. Qed.

(** X19: skipping the writes when [data_changed] answers false never leaves
    the relation data behind.  Starting from a state in which [data_changed]
    has seen nothing, after any sequence of calls of the methods of the class
    every payload remembered by [data_changed] is held, entry by entry, by the
    remote data, and by the local data too: a payload of [bind_on] and a
    payload of [manage_resources] never overwrite each other's entries, and
    declaring resources overwrites neither. *)
Theorem seen_payloads_are_held describe self ms st0 st :
  seen st0 = ∅ ->
  invoke_all describe self ms st0 = Ok st ->
  in_sync st.
Proof.
  intros Hseen%sync_inv_start Hrun id data Hid.
  pose proof (sync_inv_invoke_all _ _ _ _ _ Hseen Hrun) as Hinv.
  by destruct (Hinv _ _ Hid) as (_ & ? & ?).
Qed.

Lemma seen_payloads_are_held_witness :
  let self := Self "ha" None None in
  let ms := [AddVip "neutron" "10.0.0.5" (Some "eth0") None;
             BindResources (Some "eth0") None;
             BindOn (Some "eth1") None;
             BindResources (Some "eth1") None] in
  ∃ st, invoke_all describe_kind self ms initial = Ok st ∧ in_sync st.
Proof.
  intros self ms.
  destruct (invoke_all_store describe_kind self ms initial (or_introl eq_refl))
    as (st & Hrun & _); [repeat constructor|].
  exists st. split; [exact Hrun|].
  exact (seen_payloads_are_held describe_kind self ms initial st eq_refl Hrun).
Defined.

(** ** The keys the removal methods format *)

Lemma append_assoc s t u : (s +:+ t) +:+ u = s +:+ (t +:+ u).
Proof.
  induction s as [|c s IH]; [by rewrite !append_nil_l|].
  by rewrite !append_cons, IH.
Qed.

Lemma replace_append a b s t : replace a b (s +:+ t) = replace a b s +:+ replace a b t.
Proof.
  induction s as [|c s IH]; cbn [replace].
  - by rewrite !append_nil_l.
  - by rewrite !append_cons, <-IH.
Qed.

Lemma replace_hyphen_idemp s : replace "-" "_" (replace "-" "_" s) = replace "-" "_" s.
Proof.
  induction s as [|c s IH]; cbn [replace]; [done|]. rewrite IH.
  by destruct (Ascii.eqb c "-") eqn:Hc; [|rewrite Hc].
Qed.

Lemma has_char_append c s t : has_char c (s +:+ t) = has_char c s || has_char c t.
Proof.
  induction s as [|c' s IH]; cbn [has_char].
  - by rewrite append_nil_l.
  - rewrite append_cons. cbn [has_char]. by rewrite IH, orb_assoc.
Qed.

Lemma has_char_replace_hyphen s : has_char "-" (replace "-" "_" s) = false.
Proof.
  induction s as [|c s IH]; cbn [replace has_char]; [done|]. rewrite IH.
  by destruct (Ascii.eqb c "-") eqn:Hc; [|rewrite Hc].
Qed.

(** X20: the key [remove_init_service] and [remove_systemd_service] format
    identifies names that a charm may take for different.  The two methods
    address the same key for the same names; a hyphen and an underscore in a
    name give the same key; the underscore that separates the name of the
    service from the name of the unit file is not told from an underscore
    inside either.  The key itself never holds a hyphen. *)
Theorem service_keys_alias name service st :
  remove_init_service name service st = remove_systemd_service name service st ∧
  remove_init_service (replace "-" "_" name) (replace "-" "_" service) st
  = remove_init_service name service st ∧
  (∀ a b c, remove_init_service (a +:+ "-" +:+ b) c st
            = remove_init_service (a +:+ "_" +:+ b) c st) ∧
  (∀ a b c, remove_init_service (a +:+ "_" +:+ b) c st
            = remove_init_service a (b +:+ "_" +:+ c) st) ∧
  ∃ key, remove_init_service name service st = delete_resource key st ∧
         has_char "-" key = false.
Proof.
  split; [done|]. split; [|split; [|split]].
  - unfold remove_init_service. by rewrite !replace_hyphen_idemp.
  - intros a b c. unfold remove_init_service. by rewrite !replace_append.
  - intros a b c. unfold remove_init_service. rewrite !replace_append.
    change (replace "-" "_" "_") with "_".
    by rewrite !append_assoc.
  - eexists. split; [reflexivity|].
    by rewrite !has_char_append, !has_char_replace_hyphen.
Qed.

Lemma hex_digit_cases (P : ascii -> Prop) n :
  0 <= n < 16 ->
  (∀ m, m ∈ seqZ 0 16 -> P (hex_digit m)) -> P (hex_digit n).
Proof. intros Hn HP. apply HP, elem_of_seqZ. lia. Qed.

Lemma hex_digit_hex n : 0 <= n < 16 -> is_hex (hex_digit n) = true.
Proof.
  intros Hn. apply (hex_digit_cases (fun c => is_hex c = true) n Hn).
  intros m Hm. vm_compute in Hm.
  repeat (apply elem_of_cons in Hm as [->|Hm]; [reflexivity|]).
  by apply elem_of_nil in Hm.
Qed.

Lemma nibble_range x : 0 <= Z.land x 15 < 16.
Proof.
  change 15 with (Z.ones 4). rewrite Z.land_ones by lia. apply Z.mod_pos_bound. lia.
Qed.

Lemma all_hex_append s t : all_hex (s +:+ t) = all_hex s && all_hex t.
Proof.
  induction s as [|c s IH]; [by rewrite append_nil_l|].
  rewrite append_cons. cbn [all_hex]. by rewrite IH, andb_assoc.
Qed.

Lemma all_hex_take_str n s : all_hex s = true -> all_hex (take_str n s) = true.
Proof.
  revert s. induction n as [|n IH]; intros [|c s]; cbn [take_str all_hex]; try done.
  intros [Hc Hs]%andb_true_iff. by rewrite Hc, IH.
Qed.

Lemma all_hex_hex_word x : all_hex (Sha1.hex_word x) = true.
Proof.
  unfold Sha1.hex_word. cbn [map string_of_list_ascii all_hex].
  by rewrite !hex_digit_hex by apply nibble_range.
Qed.

Lemma all_hex_hexdigest s : all_hex (Sha1.hexdigest s) = true.
Proof. unfold Sha1.hexdigest. by rewrite !all_hex_append, !all_hex_hex_word. Qed.

Lemma all_hex_no_char c s : is_hex c = false -> all_hex s = true -> has_char c s = false.
Proof.
  intros Hc. induction s as [|c' s IH]; cbn [all_hex has_char]; [done|].
  intros [Hc' Hs]%andb_true_iff. rewrite (IH Hs), orb_false_r.
  destruct (Ascii.eqb_spec c' c) as [->|]; [congruence|done].
Qed.

(** X21: the disambiguator [remove_vip] computes when it is given no
    interface is made of seven characters among 0-9 and a-f, whatever the
    address: it holds no underscore, no hyphen and no capital, and two
    addresses give the same key exactly when their digests start with the
    same seven digits. *)
Theorem vip_key_digest name vip vip' st :
  let hash7 v := take_str 7 (Sha1.hexdigest v) in
  remove_vip name vip None st
  = delete_resource ("res_" +:+ name +:+ "_" +:+ hash7 vip +:+ "_vip") st ∧
  String.length (hash7 vip) = 7%nat ∧
  all_hex (hash7 vip) = true ∧
  has_char "_" (hash7 vip) = false ∧
  has_char "-" (hash7 vip) = false ∧
  ("res_" +:+ name +:+ "_" +:+ hash7 vip +:+ "_vip"
   = "res_" +:+ name +:+ "_" +:+ hash7 vip' +:+ "_vip" ↔ hash7 vip = hash7 vip').
Proof.
  intros hash7.
  assert (all_hex (hash7 vip) = true) as Hhex by apply all_hex_take_str, all_hex_hexdigest.
  assert (∀ v, String.length (hash7 v) = 7%nat) as Hlen.
  { intros v. apply take_str_length. rewrite hexdigest_length. lia. }
  split; [done|]. split; [done|]. split; [done|].
  split; [by apply all_hex_no_char|]. split; [by apply all_hex_no_char|].
  split; [|by intros ->].
  intros Heq. do 3 apply append_inj_l in Heq.
  apply append_same_length in Heq; [|done]. by destruct Heq.
Qed.

(** ** The characters of the values sent *)

Lemma printable_append s t : printable (s +:+ t) = printable s && printable t.
Proof.
  induction s as [|c s IH]; [by rewrite append_nil_l|].
  rewrite append_cons. cbn [printable]. by rewrite IH, andb_assoc.
Qed.

Lemma printable_join sep l :
  printable sep = true -> Forall (fun s => printable s = true) l ->
  printable (join sep l) = true.
Proof.
  intros Hsep. induction 1 as [|s l Hs Hl IH]; [done|].
  destruct l as [|s' l]; [done|].
  change (join sep (s :: s' :: l)) with (s +:+ sep +:+ join sep (s' :: l)).
  by rewrite !printable_append, Hs, Hsep, IH.
Qed.

Lemma printable_escape_char c : printable (escape_char c) = true.
Proof. by destruct c as [[] [] [] [] [] [] [] []]. Qed.

Lemma printable_escape s : printable (escape s) = true.
Proof.
  induction s as [|c s IH]; [done|]. cbn [escape].
  by rewrite printable_append, printable_escape_char, IH.
Qed.

Lemma printable_quote s : printable (quote s) = true.
Proof.
  unfold quote. rewrite printable_append. cbn [printable].
  by rewrite printable_escape.
Qed.

Lemma printable_digits d : printable (NilEmpty.string_of_uint d) = true.
Proof.
  induction d; cbn [NilEmpty.string_of_uint printable]; rewrite ?IHd; reflexivity.
Qed.

Lemma printable_uint d : printable (NilZero.string_of_uint d) = true.
Proof. destruct d; try apply printable_digits. reflexivity. Qed.

Lemma printable_str_int n : printable (str_int n) = true.
Proof.
  unfold str_int. destruct (Z.to_int n); cbn [NilZero.string_of_int printable];
    rewrite printable_uint; reflexivity.
Qed.

Lemma printable_dumps v : printable (dumps v) = true.
Proof.
  induction v as [|b|n|s|xs IH|items IH] using pyval_induction.
  - done.
  - by destruct b.
  - apply printable_str_int.
  - apply printable_quote.
  - cbn [dumps]. rewrite !printable_append, printable_join; [done|done|].
    by apply Forall_map.
  - cbn [dumps]. rewrite !printable_append, printable_join; [done|done|].
    apply Forall_map.
    rewrite (sort_by_perm fst (map (fun '(k, x) => (k, dumps x)) items)).
    apply Forall_map. eapply Forall_impl; [exact IH|].
    intros [k x] Hx. unfold dumps_item. cbn [fst snd] in *.
    by rewrite !printable_append, printable_quote, Hx.
Qed.

Lemma wire_values crm acc k x :
  wire crm acc !! k = Some x -> acc !! k = Some x ∨ ∃ v, x = SStr (dumps v).
Proof.
  revert acc. induction crm as [|[k0 v] crm IH]; intros acc; cbn [wire]; [by left|].
  intros [Hacc|Hv]%IH; [|by right].
  destruct (truthy v); [|by left].
  destruct (decide (k = "json_" +:+ k0)) as [->|Hne].
  - rewrite lookup_insert_eq in Hacc. injection Hacc as <-. right. by exists v.
  - rewrite lookup_insert_ne in Hacc by done. by left.
Qed.

(** X22: whatever the registry holds, every value [manage_resources] hands
    to [data_changed] and to the relation data is a string of printable ASCII
    characters (codes 32 to 126): the serialization escapes the control
    characters and the characters above 126 that the strings of the registry
    may hold.  So an entry of the remote data after the call is the one held
    before or such a string. *)
Theorem sent_values_printable crm st k x :
  remote_data (manage_resources crm st) !! k = Some x ->
  remote_data st !! k = Some x ∨
  ∃ s, x = SStr s ∧ wire crm ∅ !! k = Some x ∧ printable s = true.
Proof.
  rewrite manage_resources_send, send_remote.
  case_bool_decide; [|by left].
  intros [Hw|[_ Hr]]%lookup_union_Some_raw; [right|by left].
  destruct (wire_values _ _ _ _ Hw) as [Hempty|[v ->]]; [by rewrite lookup_empty in Hempty|].
  exists (dumps v). split; [done|]. split; [done|]. apply printable_dumps.
Qed.

Lemma sent_values_printable_witness :
  let crm := [("resources", PDict [("res_a", PStr (String (chr 233) (String (chr 10) "x")))])] in
  ∃ s, remote_data (manage_resources crm initial) !! "json_resources" = Some (SStr s) ∧
       printable s = true.
Proof.
  intros crm.
  destruct (remote_data (manage_resources crm initial) !! "json_resources") as [x|] eqn:Hx;
    [|by vm_compute in Hx].
  destruct (sent_values_printable crm initial "json_resources" x Hx)
    as [Hold|(s & -> & _ & Hs)]; [by vm_compute in Hold|].
  by exists s.
Defined.

(** ** From the declarations to the remote data *)

Lemma invoke_all_keeps_store describe self ms st st' :
  store_ok describe st -> invoke_all describe self ms st = Ok st' -> store_ok describe st'.
Proof.
  revert st. induction ms as [|m ms IH]; intros st Hst; cbn [invoke_all].
  - by intros [= <-].
  - destruct (invoke describe self m st) as [st1|e] eqn:Hrun; [|done].
    cbn [mbind result_bind]. apply IH.
    pose proof (invoke_attributes _ _ _ _ _ Hrun) as Hattr.
    destruct (invoke_store describe self m st Hst Hattr) as (st1' & Hrun' & Hst1 & _).
    rewrite Hrun in Hrun'. by injection Hrun' as <-.
Qed.

Lemma bind_on_payload_lookups iface mcastport :
  bind_on_payload iface mcastport !! "corosync_bindiface"
  = (i ← iface; if String.eqb i EmptyString then None else Some (SStr i)) ∧
  bind_on_payload iface mcastport !! "corosync_mcastport"
  = (p ← mcastport; if p =? 0 then None else Some (SInt p)).
Proof.
  split; unfold bind_on_payload, truthy_int, truthy_str;
    destruct mcastport as [p|], iface as [i|]; simpl; payload_cases.
Qed.

Lemma bind_on_seen iface mcastport st :
  bind_on_payload iface mcastport ≠ ∅ ->
  seen (bind_on iface mcastport st) !! "hacluster-bind_on"
  = Some (bind_on_payload iface mcastport).
Proof.
  intros Hne. rewrite bind_on_send, bool_decide_eq_true_2 by done.
  by rewrite send_seen, lookup_insert_eq.
Qed.

(** X23: what was declared reaches the subordinate.  Start where
    [data_changed] has seen nothing and the store is valid, make any calls of
    the methods of the class, then call [bind_resources].  When it returns,
    the remote data hold the interface given (if not empty), the port (4440
    when none is given; a port 0 is not sent) and, for every non-empty section
    of the registry stored, its serialization under the key json_<section>,
    whether or not this call had to write them. *)
Theorem bind_resources_delivers describe self ms iface mcastport st0 st st' :
  seen st0 = ∅ ->
  store_ok describe st0 ->
  invoke_all describe self ms st0 = Ok st ->
  bind_resources iface mcastport st = Ok st' ->
  (∀ i, iface = Some i -> i ≠ EmptyString ->
        remote_data st' !! "corosync_bindiface" = Some (SStr i)) ∧
  (default 4440 mcastport ≠ 0 ->
   remote_data st' !! "corosync_mcastport" = Some (SInt (default 4440 mcastport))) ∧
  (∀ crm k v,
     local_data st !! "resources" = Some (PDict crm) ->
     dict_get k crm = Some v -> truthy v = true ->
     remote_data st' !! ("json_" +:+ k) = Some (SStr (dumps v))).
Proof.
  intros Hseen%sync_inv_start Hst0 Hrun Hbind.
  pose proof (sync_inv_invoke_all _ _ _ _ _ Hseen Hrun) as Hinv.
  pose proof (invoke_all_keeps_store _ _ _ _ _ Hst0 Hrun) as Hst.
  assert (sync_inv st') as Hinv'.
  { by apply (sync_inv_invoke describe self (BindResources iface mcastport) st st'). }
  apply bind_resources_inv in Hbind. cbv zeta in Hbind.
  set (port := match mcastport with Some _ => mcastport | None => Some 4440 end) in Hbind.
  assert (port = Some (default 4440 mcastport)) as Hport by (by destruct mcastport).
  set (payload := bind_on_payload iface port).
  assert (∀ k x, payload !! k = Some x -> remote_data st' !! k = Some x) as Hheld.
  { intros k x Hkx.
    assert (payload ≠ ∅) as Hne by (intros Hempty; by rewrite Hempty, lookup_empty in Hkx).
    assert (seen st' !! "hacluster-bind_on" = Some payload) as Hseen'.
    { destruct Hbind as [[_ ->]|(items & _ & ->)]; [by apply bind_on_seen|].
      rewrite manage_resources_send, send_seen, lookup_insert_ne by done.
      by apply bind_on_seen. }
    destruct (Hinv' _ _ Hseen') as (_ & Hsub & _).
    by apply (proj1 (map_subseteq_spec _ _) Hsub). }
  destruct (bind_on_payload_lookups iface port) as [Hi Hp]. fold payload in Hi, Hp.
  split; [|split].
  - intros i -> Hne. apply Hheld. rewrite Hi. cbn.
    by destruct (String.eqb_spec i EmptyString).
  - intros Hne. apply Hheld. rewrite Hp, Hport. cbn.
    by destruct (Z.eqb_spec (default 4440 mcastport) 0).
  - intros crm k v Hloc Hk Hv.
    assert (registry describe crm) as Hreg.
    { destruct Hst as [Hnone|(crm' & Hreg & Hsome)]; [by rewrite Hnone in Hloc|].
      rewrite Hsome in Hloc. by injection Hloc as <-. }
    assert (get_local "resources" st = PDict crm) as Hget.
    { unfold get_local. by rewrite Hloc. }
    rewrite Hget in Hbind.
    destruct Hbind as [[Hfalse _]|(items & [= <-] & Hst')].
    { destruct crm; [done|discriminate Hfalse]. }
    rewrite (crm_init_registry _ _ Hreg) in Hst'.
    assert (seen st' !! "hacluster-manage_resources" = Some (wire crm ∅)) as Hseen'.
    { rewrite Hst'. apply manage_resources_seen. }
    destruct (Hinv' _ _ Hseen') as (_ & Hsub & _).
    apply (proj1 (map_subseteq_spec _ _) Hsub).
    pose proof (registry_shape _ _ Hreg) as (res & dels & grps & Hshape).
    rewrite wire_lookup, Hk, Hv; [done|]. rewrite Hshape. compute_done.
Qed.

Lemma bind_resources_delivers_witness :
  let self := Self "ha" None None in
  let ms := [AddVip "neutron" "10.0.0.5" (Some "eth0") None;
             BindResources (Some "eth0") None;
             RemoveVip "neutron" "10.0.0.5" (Some "eth0")] in
  ∃ st st',
    invoke_all describe_kind self ms initial = Ok st ∧
    bind_resources (Some "eth0") None st = Ok st' ∧
    remote_data st' !! "corosync_bindiface" = Some (SStr "eth0") ∧
    remote_data st' !! "corosync_mcastport" = Some (SInt 4440).
Proof.
  intros self ms.
  destruct (invoke_all_store describe_kind self ms initial (or_introl eq_refl))
    as (st & Hrun & Hst); [repeat constructor|].
  destruct (invoke_store describe_kind self (BindResources (Some "eth0") None) st Hst I)
    as (st' & Hbind & _).
  destruct (bind_resources_delivers describe_kind self ms (Some "eth0") None initial st st'
              eq_refl (or_introl eq_refl) Hrun Hbind) as (Hi & Hp & _).
  exists st, st'. split; [exact Hrun|]. split; [exact Hbind|].
  split; [by apply Hi|by apply Hp].
Defined.
